(** * PyAbel: the Hansen-Law inverse Abel transform and the centre finder

    A shallow embedding of [abel/hansenlaw.py] and of
    [find_center_by_center_of_mass] from [abel/tools/center.py].

    Numbers.  Python floats and numpy float64 values are embedded as the
    real numbers [R] of the Standard Library: every arithmetic operation
    is exact and nothing is rounded.  The one float that is not a real
    number is the quotient of [center_of_mass] by a total of zero, which
    numpy answers with nan or an infinity: it is kept as such.  Python
    integers are [Z].

    Arrays.  A one-dimensional numpy array is a [list R]; a
    two-dimensional one is the list of its rows.  An image has at least
    one row; an array without rows only arises as the lower half of a
    one-row image, and its column count, which a list of rows cannot
    hold, is never looked at.

    Exceptions.  A Python expression that can raise evaluates to a
    [result]; the image-level function, which prints, reads the clock and
    starts a worker pool, runs in a state-and-exception monad over
    [world]. *)

From Stdlib Require Import Reals Lra Lia List ZArith Bool Arith.
Import ListNotations.

Open Scope R_scope.

(** ** Python values that may raise *)

Module Py.

Inductive exn : Set :=
| ValueError
| IndexError
| ZeroDivisionError
| OverflowError.

Inductive result (A : Type) : Type :=
| Ok (a : A)
| Raise (e : exn).

Arguments Ok {A} a.
Arguments Raise {A} e.

Definition bind {A B : Type} (m : result A) (f : A -> result B) : result B :=
  match m with
  | Ok a => f a
  | Raise e => Raise e
  end.

(** [for i in xs: s = body i s], stopping at the first exception. *)
Fixpoint for_ {I S : Type} (xs : list I) (s : S)
         (body : I -> S -> result S) : result S :=
  match xs with
  | [] => Ok s
  | i :: rest => bind (body i s) (fun s' => for_ rest s' body)
  end.

(** [[f x for x in xs]], evaluated left to right. *)
Fixpoint map_ {A B : Type} (f : A -> result B) (xs : list A)
  : result (list B) :=
  match xs with
  | [] => Ok []
  | x :: rest =>
      bind (f x) (fun y => bind (map_ f rest) (fun ys => Ok (y :: ys)))
  end.

(** [range(n)]: empty when [n <= 0]. *)
Definition range (n : Z) : list Z :=
  map Z.of_nat (seq 0 (Z.to_nat n)).

Definition len {A : Type} (l : list A) : Z := Z.of_nat (length l).

(** The position an index denotes: Python counts a negative index from
    the end. *)
Definition position {A : Type} (l : list A) (i : Z) : option nat :=
  if ((0 <=? i) && (i <? len l))%Z then Some (Z.to_nat i)
  else if ((- len l <=? i) && (i <? 0))%Z then Some (Z.to_nat (i + len l))
  else None.

(** [l[i]] *)
Definition getitem {A : Type} (l : list A) (i : Z) : result A :=
  match position l i with
  | Some p =>
      match nth_error l p with
      | Some x => Ok x
      | None => Raise IndexError
      end
  | None => Raise IndexError
  end.

Fixpoint update {A : Type} (l : list A) (p : nat) (v : A) : list A :=
  match l, p with
  | [], _ => []
  | _ :: t, O => v :: t
  | x :: t, S q => x :: update t q v
  end.

(** [l[i] = v], as the array after the assignment. *)
Definition setitem {A : Type} (l : list A) (i : Z) (v : A)
  : result (list A) :=
  match position l i with
  | Some p => Ok (update l p v)
  | None => Raise IndexError
  end.

(** Float division [a / b]. *)
Definition div (a b : R) : result R :=
  if Req_dec_T b 0 then Raise ZeroDivisionError else Ok (a / b).

(** [math.pow(x, y)]: a power of a positive base is [exp (y * ln x)];
    zero to a negative power and a negative base to a fractional power
    are domain errors. *)
Definition math_pow (x y : R) : result R :=
  if Rlt_dec 0 x then Ok (Rpower x y)
  else if Req_dec_T x 0 then
    if Rlt_dec y 0 then Raise ValueError
    else if Req_dec_T y 0 then Ok 1 else Ok 0
  else
    if Req_dec_T (IZR (Int_part y)) y then Ok (powerRZ x (Int_part y))
    else Raise ValueError.

(** Builtin [round] of one argument: the nearest integer, a tie going
    to the even one. *)
Definition round (x : R) : Z :=
  let f := Int_part x in
  let r := frac_part x in
  if Rlt_dec r (1 / 2) then f
  else if Rlt_dec (1 / 2) r then (f + 1)%Z
  else if Z.even f then f else (f + 1)%Z.

(** A float as a numpy division leaves it: a number, or, the divisor
    being zero, nan or an infinity (whose sign is not kept). *)
Inductive quotient : Type :=
| Finite (x : R)
| NaN
| Infinity.

Coercion Finite : R >-> quotient.

(** [round] of such a float: nan cannot be converted to an integer
    ([ValueError]), neither can an infinity ([OverflowError]). *)
Definition round_float (q : quotient) : result Z :=
  match q with
  | Finite x => Ok (round x)
  | NaN => Raise ValueError
  | Infinity => Raise OverflowError
  end.

End Py.

Import Py.

Declare Scope py_scope.
Delimit Scope py_scope with py.
Notation "x <- m ;; k" := (Py.bind m (fun x => k))
  (at level 61, m at next level, right associativity) : py_scope.
Notation "' pat <- m ;; k" := (Py.bind m (fun x => match x with pat => k end))
  (at level 61, pat pattern, m at next level, right associativity) : py_scope.
Open Scope py_scope.

(** ** The numpy operations the program calls *)

Module Np.

Abbreviation vector := (list R).
Abbreviation matrix := (list (list R)).

Definition size (a : vector) : Z := len a.
Definition zeros (n : Z) : vector := repeat 0 (Z.to_nat n).
Definition sum (a : vector) : R := fold_left Rplus a 0.
Definition neg (a : vector) : vector := map Ropp a.
Definition log (x : R) : R := ln x.

(** [a[lo:]] and [a[:-k]] *)
Definition from (lo : nat) (a : vector) : vector := skipn lo a.
Definition upto_last (k : nat) (a : vector) : vector :=
  firstn (length a - k) a.

Fixpoint sub (a b : vector) : vector :=
  match a, b with
  | x :: a', y :: b' => (x - y) :: sub a' b'
  | _, _ => []
  end.

(** [np.gradient(f)] with unit spacing: central differences inside,
    [out[1:-1] = (f[2:] - f[:-2]) / 2], one-sided differences at the two
    ends, [out[0] = f[1] - f[0]] and [out[-1] = f[-1] - f[-2]]; fewer
    than two samples are refused. *)
Definition gradient (f : vector) : result vector :=
  if (size f <? 2)%Z then Raise ValueError
  else
    let inner := map (fun d => d / 2) (sub (from 2 f) (upto_last 2 f)) in
    f0 <- getitem f 0 ;;
    f1 <- getitem f 1 ;;
    fm1 <- getitem f (-1) ;;
    fm2 <- getitem f (-2) ;;
    Ok ((f1 - f0) :: inner ++ [fm1 - fm2]).

End Np.

(** ** [abel/hansenlaw.py]: the row transform *)

Definition h : list R :=
  [0.318; 0.19; 0.35; 0.82; 1.8; 3.9; 8.3; 19.6; 48.3].

Definition lam : list R :=
  [0.0; -2.1; -6.2; -22.4; -92.5; -414.5; -1889.4; -8990.9; -47391.1].

(** Eq. (18) *)
Definition Gamma (Nm lam : R) : result R :=
  if Rlt_dec lam (-1) then
    p <- math_pow Nm lam ;;
    Py.div (1.0 - p) (PI * lam)
  else Ok (- Np.log Nm / PI).

(** One pass of the inner loop body, Eq. (17):
    [X[k] = pow(Nm,lam[k])*X[k] + h[k]*Gamma(Nm,lam[k])*gp[n]]. *)
Definition update_X (gp : Np.vector) (n : Z) (Nm : R) (k : Z)
           (X : Np.vector) : result Np.vector :=
  lk <- getitem lam k ;;
  p <- math_pow Nm lk ;;
  xk <- getitem X k ;;
  hk <- getitem h k ;;
  G <- Gamma Nm lk ;;
  g <- getitem gp n ;;
  setitem X k (p * xk + hk * G * g).

(** The body of the outer loop, on the pair of arrays it assigns to. *)
Definition pixel_step (N K : Z) (gp : Np.vector) (n : Z)
           (st : Np.vector * Np.vector) : result (Np.vector * Np.vector) :=
  let '(X, AImgRow) := st in
  Nm <- Py.div (IZR (N - n)) (IZR (N - n) - 1.0) ;;
  X <- for_ (range K) X (update_X gp n Nm) ;;
  AImgRow <- setitem AImgRow n (Np.sum X) ;;
  Ok (X, AImgRow).

Definition iabel_hansenlaw_transform (ImgRow : Np.vector) : result Np.vector :=
  let K := Np.size h in
  let N := Np.size ImgRow in
  let X := Np.zeros K in
  let AImgRow := Np.zeros N in
  gp <- Np.gradient ImgRow ;;
  '(X, AImgRow) <- for_ (range (N - 1)) (X, AImgRow) (pixel_step N K gp) ;;
  last <- getitem AImgRow (N - 2) ;;
  AImgRow <- setitem AImgRow (N - 1) last ;;
  Ok (Np.neg AImgRow).

(** ** The recursion as the specification words it

    [Nm = (N-n)/(N-n-1)], accumulators that start at zero and are
    updated once per column, the output the sum of the nine accumulators,
    the last output a copy of the one before it, the row negated. *)

Module HansenLawSpec.

Definition Nm (N n : nat) : R := INR (N - n) / INR (N - n - 1).

Definition Gamma_spec (Nm lam : R) : R :=
  if Rlt_dec lam (-1) then (1 - Rpower Nm lam) / (PI * lam)
  else - ln Nm / PI.

(** Accumulator [k] once column [n] has been processed. *)
Fixpoint X (N : nat) (g : nat -> R) (n k : nat) : R :=
  let before := match n with O => 0 | S m => X N g m k end in
  let l := nth k lam 0 in
  Rpower (Nm N n) l * before + nth k h 0 * Gamma_spec (Nm N n) l * g n.

Definition out (N : nat) (g : nat -> R) (n : nat) : R :=
  fold_right (fun k acc => X N g n k + acc) 0 (seq 0 9).

Definition row (N : nat) (g : list R) : list R :=
  map (fun n =>
         - out N (fun i => nth i g 0)
             (if (n <? N - 1)%nat then n else (N - 2)%nat))
      (seq 0 N).

End HansenLawSpec.

(** ** Two-dimensional arrays *)

Module Np2.

Import Np.

Definition ncols (a : matrix) : Z :=
  match a with
  | [] => 0
  | r :: _ => len r
  end.

(** [np.shape(a)] unpacked into two names: a ragged or empty nesting
    is not two-dimensional. *)
Definition shape (a : matrix) : result (Z * Z) :=
  match a with
  | [] => Raise ValueError
  | r :: rest =>
      if forallb (fun r' => (length r' =? length r)%nat) rest
      then Ok (len a, len r)
      else Raise ValueError
  end.

(** [np.array_split(l, 2)]: the first section takes the extra element
    of an odd length. *)
Definition array_split {A : Type} (l : list A) : list A * list A :=
  let c := (length l / 2 + length l mod 2)%nat in
  (firstn c l, skipn c l).

Definition array_split_axis0 (a : matrix) : matrix * matrix :=
  array_split a.

Definition array_split_axis1 (a : matrix) : matrix * matrix :=
  (map (fun r => fst (array_split r)) a,
   map (fun r => snd (array_split r)) a).

Definition fliplr (a : matrix) : matrix := map (@rev R) a.
Definition flipud (a : matrix) : matrix := rev a.

(** [np.fliplr] of a Python list of rows: an empty list converts to a
    one-dimensional array, which [fliplr] refuses. *)
Definition fliplr_rows (rows : list vector) : result matrix :=
  match rows with
  | [] => Raise ValueError
  | _ => Ok (fliplr rows)
  end.

(** [np.concatenate((a, b), axis=1)]: the row counts must agree. *)
Definition concatenate_axis1 (a b : matrix) : result matrix :=
  if (length a =? length b)%nat
  then Ok (map (fun p => fst p ++ snd p) (combine a b))
  else Raise ValueError.

(** [np.concatenate((a, b), axis=0)]: the column counts must agree. *)
Definition concatenate_axis0 (a b : matrix) : result matrix :=
  if (ncols a =? ncols b)%Z then Ok (a ++ b) else Raise ValueError.

(** [a * flag] for a Python bool [flag]. *)
Definition times_bool (a : matrix) (flag : bool) : matrix :=
  map (map (fun x => x * (if flag then 1 else 0))) a.

(** Broadcasting along one axis: equal lengths pair up, a length of
    one is stretched, anything else is refused. *)
Fixpoint zip_ {A B C : Type} (f : A -> B -> result C)
         (a : list A) (b : list B) : result (list C) :=
  match a, b with
  | x :: a', y :: b' =>
      z <- f x y ;; zs <- zip_ f a' b' ;; Ok (z :: zs)
  | _, _ => Ok []
  end.

Definition broadcast {A B C : Type} (f : A -> B -> result C)
           (a : list A) (b : list B) : result (list C) :=
  if (length a =? length b)%nat then zip_ f a b
  else
    match a, b with
    | [x], _ => map_ (f x) b
    | _, [y] => map_ (fun x => f x y) a
    | _, _ => Raise ValueError
    end.

Definition add_rows (a b : vector) : result vector :=
  broadcast (fun x y => Ok (x + y)) a b.

(** [a + b] *)
Definition add (a b : matrix) : result matrix :=
  broadcast add_rows a b.

(** [np.any(quad)] on the four flags. *)
Definition any (quad : bool * bool * bool * bool) : bool :=
  let '(a, b, c, d) := quad in a || b || c || d.

Definition total (a : matrix) : R := sum (map sum a).

(** [scipy.ndimage.center_of_mass(a)]: per axis, the sum of the
    samples weighted by their index along that axis, over the sum of
    the samples; the row coordinate comes first. *)
Definition weighted (w : list R) : R :=
  sum (map (fun p => INR (fst p) * snd p) (combine (seq 0 (length w)) w)).

(** numpy's [a / b] on float64: a division by zero is a warning, not
    an exception, and answers nan for 0/0 and an infinity otherwise. *)
Definition divide (a b : R) : quotient :=
  if Req_dec_T b 0 then (if Req_dec_T a 0 then NaN else Infinity)
  else Finite (a / b).

Definition center_of_mass (a : matrix) : quotient * quotient :=
  let normalizer := total a in
  (divide (weighted (map sum a)) normalizer,
   divide (sum (map weighted a)) normalizer).

End Np2.

(** ** The world the image-level functions act on *)

Module World.

(** The state of a [multiprocessing.Pool]. *)
Inductive pool_state : Set := RUN | CLOSE | TERMINATE.

Record pool : Set := { processes : Z; state : pool_state }.

(** What the program prints, with the formatted values kept as
    values. *)
Inductive message : Type :=
| ImageSize (N M : Z)
| CoAdding
| Individual
| Calculating
| Seconds (dt : R)
| GeneratingSpeeds
| CenterOfMass (x y : quotient) (rounded : option (Z * Z)).

Record world : Type := {
  cpu_count : Z;              (* what [mp.cpu_count()] answers *)
  clock : nat -> R;           (* the successive answers of [time()] *)
  ticks : nat;                (* how many have been read *)
  stdout : list message;      (* printed so far, oldest first *)
  pools : list pool           (* every pool created so far *)
}.

Definition M (A : Type) : Type := world -> result A * world.

Definition ret {A : Type} (a : A) : M A := fun w => (Ok a, w).

Definition wbind {A B : Type} (m : M A) (f : A -> M B) : M B :=
  fun w =>
    match m w with
    | (Ok a, w') => f a w'
    | (Raise e, w') => (Raise e, w')
    end.

Definition lift {A : Type} (r : result A) : M A := fun w => (r, w).

Definition when (b : bool) (m : M unit) : M unit :=
  if b then m else ret tt.

Definition print (msg : message) : M unit :=
  fun w =>
    (Ok tt,
     {| cpu_count := cpu_count w; clock := clock w; ticks := ticks w;
        stdout := stdout w ++ [msg]; pools := pools w |}).

Definition time : M R :=
  fun w =>
    (Ok (clock w (ticks w)),
     {| cpu_count := cpu_count w; clock := clock w; ticks := S (ticks w);
        stdout := stdout w; pools := pools w |}).

Definition mp_cpu_count : M Z := fun w => (Ok (cpu_count w), w).

(** [mp.Pool(processes=p)]: fewer than one process is refused;
    otherwise the pool starts running and is referred to by its place
    in [pools]. *)
Definition mp_Pool (p : Z) : M nat :=
  fun w =>
    if (p <? 1)%Z then (Raise ValueError, w)
    else
      (Ok (length (pools w)),
       {| cpu_count := cpu_count w; clock := clock w; ticks := ticks w;
          stdout := stdout w;
          pools := pools w ++ [{| processes := p; state := RUN |}] |}).

(** [pool.map(f, xs)]: the results in the order of [xs]; an exception
    of a worker is raised again in the caller; a pool that is not
    running refuses the work. *)
Definition pool_map {A B : Type} (pool : nat) (f : A -> result B)
           (xs : list A) : M (list B) :=
  fun w =>
    match nth_error (pools w) pool with
    | Some {| processes := _; state := RUN |} => (map_ f xs, w)
    | _ => (Raise ValueError, w)
    end.

End World.

Import World.

Declare Scope world_scope.
Delimit Scope world_scope with world.
Notation "x <- m ;; k" := (World.wbind m (fun x => k))
  (at level 61, m at next level, right associativity) : world_scope.
Notation "' pat <- m ;; k" :=
  (World.wbind m (fun x => match x with pat => k end))
  (at level 61, pat pattern, m at next level, right associativity)
  : world_scope.
Notation "m ;;; k" := (World.wbind m (fun _ => k))
  (at level 61, right associativity) : world_scope.

(** ** [abel/hansenlaw.py]: the image transform *)

Definition quadrants : Type :=
  (Np.matrix * Np.matrix * Np.matrix * Np.matrix)%type.

Definition selector : Type := (bool * bool * bool * bool)%type.

(** Lines 76-81: the split into halves, then quadrants, each turned to
    the orientation of the row transform. *)
Definition decompose (data : Np.matrix) : quadrants :=
  let '(left', right') := Np2.array_split_axis1 data in
  let '(Q0, Q3) := Np2.array_split_axis0 right' in
  let '(Q1, Q2) := Np2.array_split_axis0 left' in
  let Q0 := Np2.fliplr Q0 in
  let Q2 := Np2.flipud Q2 in
  let Q3 := Np2.fliplr (Np2.flipud Q3) in
  (Q0, Q1, Q2, Q3).

(** [[Q[row] for row in range(N2)]] *)
Definition rows_of (Q : Np.matrix) (N2 : Z) : result (list Np.vector) :=
  map_ (fun row => getitem Q row) (range N2).

(** Line 87: [Q0*quad[0]+Q1*quad[1]+Q2*quad[2]+Q3*quad[3]] *)
Definition coadd (quad : selector) (Qs : quadrants) : result Np.matrix :=
  let '(Q0, Q1, Q2, Q3) := Qs in
  let '(s0, s1, s2, s3) := quad in
  a <- Np2.add (Np2.times_bool Q0 s0) (Np2.times_bool Q1 s1) ;;
  b <- Np2.add a (Np2.times_bool Q2 s2) ;;
  Np2.add b (Np2.times_bool Q3 s3).

(** Lines 84-104: one combined quadrant when a selector entry is set,
    the four quadrants one after the other when none is. *)
Definition transform_quadrants (pool : nat) (quad : selector)
           (verbose : bool) (N2 : Z) (Qs : quadrants)
  : M (list Np.vector * list Np.vector * list Np.vector * list Np.vector) :=
  (if Np2.any quad then
     when verbose (print CoAdding) ;;;
     Q <- lift (coadd quad Qs) ;;
     when verbose (print Calculating) ;;;
     rows <- lift (rows_of Q N2) ;;
     AQ0 <- pool_map pool iabel_hansenlaw_transform rows ;;
     ret (AQ0, AQ0, AQ0, AQ0)
   else
     let '(Q0, Q1, Q2, Q3) := Qs in
     when verbose (print Individual) ;;;
     when verbose (print Calculating) ;;;
     r0 <- lift (rows_of Q0 N2) ;;
     AQ0 <- pool_map pool iabel_hansenlaw_transform r0 ;;
     r1 <- lift (rows_of Q1 N2) ;;
     AQ1 <- pool_map pool iabel_hansenlaw_transform r1 ;;
     r2 <- lift (rows_of Q2 N2) ;;
     AQ2 <- pool_map pool iabel_hansenlaw_transform r2 ;;
     r3 <- lift (rows_of Q3 N2) ;;
     AQ3 <- pool_map pool iabel_hansenlaw_transform r3 ;;
     ret (AQ0, AQ1, AQ2, AQ3))%world.

(** Lines 107-109: the image put together again. *)
Definition reassemble (AQ0 AQ1 AQ2 AQ3 : list Np.vector) : result Np.matrix :=
  f0 <- Np2.fliplr_rows AQ0 ;;
  Top <- Np2.concatenate_axis1 AQ1 f0 ;;
  f3 <- Np2.fliplr_rows AQ3 ;;
  b <- Np2.concatenate_axis1 AQ2 f3 ;;
  let Bottom := Np2.flipud b in
  Np2.concatenate_axis0 Top Bottom.

Inductive output (S : Type) : Type :=
| Recon (recon : Np.matrix)
| ReconSpeeds (recon : Np.matrix) (speeds : S).

Arguments Recon {S} recon.
Arguments ReconSpeeds {S} recon speeds.

Definition recon_of {S : Type} (o : output S) : Np.matrix :=
  match o with
  | Recon r => r
  | ReconSpeeds r _ => r
  end.

Section Orchestrator.

(** [abel.tools.calculate_speeds] is not part of the sources at hand:
    any function of the reconstructed image and of [N]. *)
Context {S : Type} (calculate_speeds : Np.matrix -> Z -> result S).

Definition iabel_hansenlaw (data : Np.matrix) (quad : selector)
           (calc_speeds verbose : bool) (freecpus : Z) : M (output S) :=
  (ncpu <- mp_cpu_count ;;
   pool <- mp_Pool (ncpu - freecpus) ;;
   '(N, M) <- lift (Np2.shape data) ;;
   let N2 := (N / 2)%Z in
   when verbose (print (ImageSize N M)) ;;;
   t0 <- time ;;
   let Qs := decompose data in
   '(AQ0, AQ1, AQ2, AQ3) <- transform_quadrants pool quad verbose N2 Qs ;;
   recon <- lift (reassemble AQ0 AQ1 AQ2 AQ3) ;;
   when verbose (t <- time ;; print (Seconds (t - t0))) ;;;
   if calc_speeds then
     (* [t1] is bound, and read, only when [verbose] holds *)
     t1 <- (if verbose
            then print GeneratingSpeeds ;;; t <- time ;; ret t
            else ret 0) ;;
     speeds <- lift (calculate_speeds recon N) ;;
     when verbose (t <- time ;; print (Seconds (t - t1))) ;;;
     ret (ReconSpeeds recon speeds)
   else ret (Recon recon))%world.

End Orchestrator.

(** ** [abel/tools/center.py] *)

Inductive center : Type :=
| Exact (x y : quotient)
| Pixel (x y : Z).

(** The line to print is put together before the rounding and after
    it, and printed last: a [round] that raises leaves nothing
    printed. *)
Definition find_center_by_center_of_mass (data : Np.matrix)
           (verbose round_output : bool) : M center :=
  (let com := Np2.center_of_mass data in
   let '(x, y) := (snd com, fst com) in
   if round_output then
     rx <- lift (Py.round_float x) ;;
     ry <- lift (Py.round_float y) ;;
     when verbose (print (CenterOfMass x y (Some (rx, ry)))) ;;;
     ret (Pixel rx ry)
   else
     when verbose (print (CenterOfMass x y None)) ;;;
     ret (Exact x y))%world.

(** ** The vocabulary of the statements *)

Import Np.

(** The accumulators before column [n] is processed. *)
Definition before (N : nat) (g : nat -> R) (n k : nat) : R :=
  match n with
  | O => 0
  | Datatypes.S m => HansenLawSpec.X N g m k
  end.

(** [a] has [p] rows of [q] samples each. *)
Definition shaped (p q : nat) (a : matrix) : Prop :=
  length a = p /\ Forall (fun r => length r = q) a.

(** [a[i][j]] *)
Definition entry (a : matrix) (i j : nat) : R := nth j (nth i a []) 0.

(** What a quadrant sample contributes to the combined quadrant. *)
Definition selected (flag : bool) (x : R) : R := if flag then x else 0.

(** Printing and reading the clock leave the machine and its pools as
    they are. *)
Definition stable (w0 w : world) : Prop :=
  cpu_count w = cpu_count w0 /\ pools w = pools w0.

(** From any world that differs from [w0] in what was printed and in
    the clock readings only, [m] evaluates to [r] and leaves such a
    world. *)
Definition runs {A : Type} (w0 : world) (m : M A) (r : result A) : Prop :=
  forall w, stable w0 w -> fst (m w) = r /\ stable w0 (snd (m w)).

(** The same for a computation whose value depends on the clock: it
    returns some value. *)
Definition succeeds {A : Type} (w0 : world) (m : M A) : Prop :=
  forall w, stable w0 w ->
            exists a, fst (m w) = Ok a /\ stable w0 (snd (m w)).

(** The value of lines 84-104, without the printing and the pool. *)
Definition transform_quadrants_value (quad : selector) (N2 : Z) (Qs : quadrants)
  : result (list vector * list vector * list vector * list vector) :=
  if Np2.any quad then
    Q <- coadd quad Qs ;;
    rows <- rows_of Q N2 ;;
    A <- map_ iabel_hansenlaw_transform rows ;;
    Ok (A, A, A, A)
  else
    let '(Q0, Q1, Q2, Q3) := Qs in
    r0 <- rows_of Q0 N2 ;;
    A0 <- map_ iabel_hansenlaw_transform r0 ;;
    r1 <- rows_of Q1 N2 ;;
    A1 <- map_ iabel_hansenlaw_transform r1 ;;
    r2 <- rows_of Q2 N2 ;;
    A2 <- map_ iabel_hansenlaw_transform r2 ;;
    r3 <- rows_of Q3 N2 ;;
    A3 <- map_ iabel_hansenlaw_transform r3 ;;
    Ok (A0, A1, A2, A3).

(** The value of [iabel_hansenlaw] once its pool is running. *)
Definition iabel_hansenlaw_value {S : Type}
           (calculate_speeds : matrix -> Z -> result S)
           (data : matrix) (quad : selector) (calc_speeds : bool)
  : result (output S) :=
  '(N, M) <- Np2.shape data ;;
  '(AQ0, AQ1, AQ2, AQ3) <-
    transform_quadrants_value quad (N / 2)%Z (decompose data) ;;
  recon <- reassemble AQ0 AQ1 AQ2 AQ3 ;;
  if calc_speeds then
    speeds <- calculate_speeds recon N ;;
    Ok (ReconSpeeds recon speeds)
  else Ok (Recon recon).

(** [A] holds the transforms of the first [n] rows of [Q], in their
    order and nothing else. *)
Definition transformed_rows (n : Z) (Q : matrix) (A : list vector) : Prop :=
  len A = n
  /\ forall i, (i < length A)%nat ->
       exists row, nth_error Q i = Some row
                   /\ iabel_hansenlaw_transform row = Ok (nth i A []).

(** The first moment of the weights [w], placed at 0, 1, 2, ..., about
    the position [c]. *)
Definition moment (c : R) (w : vector) : R :=
  Np.sum (map (fun p => (INR (fst p) - c) * snd p)
              (combine (seq 0 (length w)) w)).

(** [m] only adds lines to what has been printed. *)
Definition appends {A : Type} (m : M A) : Prop :=
  forall w, exists l, stdout (snd (m w)) = stdout w ++ l.

(** Concrete inputs: a four-core and a single-core machine on which
    nothing has run yet, a four-core machine with one pool of three
    processes, a (4,4) image, a (2,2) quadrant, and a
    [calculate_speeds] that returns nothing of interest. *)
Definition example_world : world :=
  {| cpu_count := 4; clock := fun _ => 0; ticks := 0; stdout := [];
     pools := [] |}.

Definition single_core_world : world :=
  {| cpu_count := 1; clock := fun _ => 0; ticks := 0; stdout := [];
     pools := [] |}.

Definition example_image : matrix :=
  [[1; 2; 3; 4]; [5; 6; 7; 8]; [9; 10; 11; 12]; [13; 14; 15; 16]].

Definition no_speeds (recon : matrix) (N : Z) : result unit := Ok tt.

Definition pool_world : world :=
  {| cpu_count := 4; clock := fun _ => 0; ticks := 0; stdout := [];
     pools := [{| processes := 3; state := RUN |}] |}.

Definition example_quadrant : matrix := [[1; 2]; [3; 4]].

(** Two images whose samples add up to zero: one without any light, and
    one whose columns cancel. *)
Definition dark_image : matrix := [[0; 0]; [0; 0]].

Definition balanced_image : matrix := [[1; -1]].

(** ** Further vocabulary *)

(** The numerical gradient at one position: a one-sided difference at
    the two ends, half the difference of the two neighbours inside. *)
Definition grad_at (f : vector) (i : nat) : R :=
  if (i =? 0)%nat then nth 1 f 0 - nth 0 f 0
  else if (i =? length f - 1)%nat
       then nth (length f - 1) f 0 - nth (length f - 2) f 0
       else (nth (i + 1) f 0 - nth (i - 1) f 0) / 2.

(** [a * r1 + b * r2] on rows of equal length. *)
Definition combination (a b : R) (r1 r2 : vector) : vector :=
  map (fun p => a * fst p + b * snd p) (combine r1 r2).

Definition nondecreasing (r : vector) : Prop :=
  forall i, (i + 1 < length r)%nat -> nth i r 0 <= nth (i + 1) r 0.

(** [m] prints nothing. *)
Definition quiet {A : Type} (m : M A) : Prop :=
  forall w, stdout (snd (m w)) = stdout w.

(** A (5,4) image. *)
Definition odd_image : matrix :=
  [[1; 2; 3; 4]; [5; 6; 7; 8]; [9; 10; 11; 12]; [13; 14; 15; 16];
   [17; 18; 19; 20]].

(** ** [abel/tools/center.py]: the centre of the image *)

(** [data.shape]: two entries for a two-dimensional array, one for
    anything else. *)
Definition shape_attr (data : matrix) : list Z :=
  match Np2.shape data with
  | Ok (N, M) => [N; M]
  | Raise _ => [len data]
  end.

Definition find_center_by_center_of_image (data : matrix) (verbose : bool)
  : M center :=
  lift (c1 <- getitem (shape_attr data) 1 ;;
        c1' <- getitem (shape_attr data) 1 ;;
        c0 <- getitem (shape_attr data) 0 ;;
        c0' <- getitem (shape_attr data) 0 ;;
        Ok (Pixel (c1 / 2 + c1' mod 2) (c0 / 2 + c0' mod 2))).

(** [c * data] *)
Definition scaled (c : R) (data : matrix) : matrix :=
  map (map (Rmult c)) data.


Definition nonnegative (data : matrix) : Prop :=
  Forall (Forall (fun x => 0 <= x)) data.

(** * Proofs *)

(** * Indexing and loops *)

Section Indexing.

Context {A : Type}.
Implicit Types (l : list A) (k : nat) (v d : A).

Lemma position_nat l k :
  (k < length l)%nat -> position l (Z.of_nat k) = Some k.
Proof.
  intros Hk. unfold position, len.
  replace ((0 <=? Z.of_nat k) && (Z.of_nat k <? Z.of_nat (length l)))%Z
    with true.
  - now rewrite Nat2Z.id.
  - symmetry. apply andb_true_iff. split.
    + apply Z.leb_le. lia.
    + apply Z.ltb_lt. lia.
Qed.

Lemma position_from_end l k :
  (0 < k <= length l)%nat ->
  position l (- Z.of_nat k) = Some (length l - k)%nat.
Proof.
  intros Hk. unfold position, len.
  replace (0 <=? - Z.of_nat k)%Z with false
    by (symmetry; apply Z.leb_gt; lia).
  cbn [andb].
  replace ((- Z.of_nat (length l) <=? - Z.of_nat k) && (- Z.of_nat k <? 0))%Z
    with true.
  - f_equal. lia.
  - symmetry. apply andb_true_iff. split.
    + apply Z.leb_le. lia.
    + apply Z.ltb_lt. lia.
Qed.

Lemma position_bound l i p :
  position l i = Some p -> (p < length l)%nat.
Proof.
  unfold position, len.
  destruct ((0 <=? i) && (i <? Z.of_nat (length l)))%Z eqn:E1.
  - apply andb_true_iff in E1 as [H1 H2].
    apply Z.leb_le in H1. apply Z.ltb_lt in H2.
    intros [= <-]. lia.
  - destruct ((- Z.of_nat (length l) <=? i) && (i <? 0))%Z eqn:E2;
      [|discriminate].
    apply andb_true_iff in E2 as [H1 H2].
    apply Z.leb_le in H1. apply Z.ltb_lt in H2.
    intros [= <-]. lia.
Qed.

Lemma getitem_nat l k d :
  (k < length l)%nat -> getitem l (Z.of_nat k) = Ok (nth k l d).
Proof.
  intros Hk. unfold getitem. rewrite position_nat by assumption.
  destruct (nth_error l k) eqn:E.
  - now rewrite (nth_error_nth _ _ d E).
  - apply nth_error_None in E. lia.
Qed.

Lemma getitem_from_end l k d :
  (0 < k <= length l)%nat ->
  getitem l (- Z.of_nat k) = Ok (nth (length l - k) l d).
Proof.
  intros Hk. unfold getitem. rewrite position_from_end by assumption.
  destruct (nth_error l (length l - k)) eqn:E.
  - now rewrite (nth_error_nth _ _ d E).
  - apply nth_error_None in E. lia.
Qed.

Lemma setitem_nat l k v :
  (k < length l)%nat -> setitem l (Z.of_nat k) v = Ok (update l k v).
Proof.
  intros Hk. unfold setitem. now rewrite position_nat.
Qed.

Lemma update_length l k v : length (update l k v) = length l.
Proof.
  revert k. induction l as [|x l IH]; intros [|k]; cbn; auto.
Qed.

Lemma nth_update l k j v d :
  (k < length l)%nat ->
  nth j (update l k v) d = if (j =? k)%nat then v else nth j l d.
Proof.
  revert k j. induction l as [|x l IH]; intros [|k] [|j] Hk; cbn in *;
    try lia; auto.
  apply IH. lia.
Qed.

Lemma getitem_ok_length l i x : getitem l i = Ok x -> l <> [].
Proof.
  unfold getitem. destruct (position l i) eqn:E; [|discriminate].
  apply position_bound in E. intros _ ->. cbn in E. lia.
Qed.

End Indexing.

Lemma range_of_nat (n : nat) : range (Z.of_nat n) = map Z.of_nat (seq 0 n).
Proof. unfold range. now rewrite Nat2Z.id. Qed.

Lemma range_nonpos (n : Z) : (n <= 0)%Z -> range n = [].
Proof.
  intros Hn. unfold range. replace (Z.to_nat n) with 0%nat by lia. reflexivity.
Qed.

Lemma for_app {I S : Type} (xs ys : list I) (s : S) body :
  for_ (xs ++ ys) s body = Py.bind (for_ xs s body) (fun s' => for_ ys s' body).
Proof.
  revert s. induction xs as [|x xs IH]; intros s; cbn; [reflexivity|].
  destruct (body x s); cbn; auto.
Qed.

(** A loop over [range(n)] whose body keeps an invariant indexed by the
    number of passes made. *)
Lemma for_range_invariant {S : Type} (P : nat -> S -> Prop) (n : nat)
      (body : Z -> S -> result S) (s0 : S) :
  P 0%nat s0 ->
  (forall j s, (j < n)%nat -> P j s ->
               exists s', body (Z.of_nat j) s = Ok s' /\ P (Datatypes.S j) s') ->
  exists s, for_ (range (Z.of_nat n)) s0 body = Ok s /\ P n s.
Proof.
  intros H0 Hstep. rewrite range_of_nat.
  induction n as [|n IH].
  - exists s0. split; [reflexivity|assumption].
  - destruct IH as (s & Hs & HP).
    { intros j s Hj. apply Hstep. lia. }
    rewrite seq_S, map_app, for_app, Hs. cbn.
    destruct (Hstep n s (Nat.lt_succ_diag_r n) HP) as (s' & Hb & HP').
    rewrite Hb. cbn. eauto.
Qed.

Lemma map__ok {A B : Type} (f : A -> result B) (g : A -> B) (xs : list A) :
  (forall x, In x xs -> f x = Ok (g x)) -> map_ f xs = Ok (map g xs).
Proof.
  induction xs as [|x xs IH]; intros H; cbn; [reflexivity|].
  rewrite (H x) by (now left). cbn. rewrite IH; [reflexivity|].
  intros y Hy. apply H. now right.
Qed.

Lemma map__id {A : Type} (xs : list A) : map_ Ok xs = Ok xs.
Proof.
  rewrite (map__ok Ok (fun x => x)) by reflexivity. now rewrite map_id.
Qed.

Lemma map__raise {A B : Type} (f : A -> result B) (e : exn) (xs : list A) :
  xs <> [] -> (forall x, In x xs -> f x = Raise e) -> map_ f xs = Raise e.
Proof.
  destruct xs as [|x xs]; [congruence|]. intros _ H. cbn.
  now rewrite (H x) by (now left).
Qed.

(** * The row transform *)

Lemma sum_fold_right (a : vector) : Np.sum a = fold_right Rplus 0 a.
Proof.
  unfold Np.sum.
  assert (H : forall l acc, fold_left Rplus l acc = acc + fold_right Rplus 0 l).
  { induction l as [|x l IH]; intros acc; cbn; [lra|]. rewrite IH. lra. }
  rewrite H. lra.
Qed.

Lemma fold_right_nth (a : vector) (s : nat) (pre : vector) :
  length pre = s ->
  fold_right (fun k acc => nth k (pre ++ a) 0 + acc) 0 (seq s (length a))
  = fold_right Rplus 0 a.
Proof.
  revert s pre. induction a as [|x a IH]; intros s pre Hs; cbn; [reflexivity|].
  rewrite app_nth2 by lia. rewrite Hs, Nat.sub_diag. cbn. f_equal.
  specialize (IH (S s) (pre ++ [x])).
  rewrite <- app_assoc in IH. cbn in IH. apply IH.
  rewrite length_app. cbn. lia.
Qed.

Lemma sum_by_index (a : vector) :
  Np.sum a = fold_right (fun k acc => nth k a 0 + acc) 0 (seq 0 (length a)).
Proof.
  rewrite sum_fold_right. symmetry. exact (fold_right_nth a 0 [] eq_refl).
Qed.

Lemma fold_right_ext_in {A B : Type} (f g : A -> B -> B) (b : B) (l : list A) :
  (forall x acc, In x l -> f x acc = g x acc) ->
  fold_right f b l = fold_right g b l.
Proof.
  induction l as [|x l IH]; intros H; cbn; [reflexivity|].
  rewrite IH by (intros; apply H; now right). apply H. now left.
Qed.

Lemma lam_cases (k : nat) :
  (k < 9)%nat -> (k = 0%nat /\ nth k lam 0 = 0) \/ nth k lam 0 < -1.
Proof.
  intros Hk.
  do 9 (destruct k as [|k]; [cbn; first [left; split; [reflexivity|lra] | right; lra]|]).
  lia.
Qed.

Lemma Nm_value (N n : nat) :
  (n + 2 <= N)%nat ->
  Py.div (IZR (Z.of_nat N - Z.of_nat n)) (IZR (Z.of_nat N - Z.of_nat n) - 1.0)
  = Ok (HansenLawSpec.Nm N n).
Proof.
  intros Hn. unfold Py.div, HansenLawSpec.Nm.
  replace (Z.of_nat N - Z.of_nat n)%Z with (Z.of_nat (N - n)) by lia.
  rewrite <- INR_IZR_INZ.
  assert (E : INR (N - n) - 1.0 = INR (N - n - 1)).
  { rewrite (minus_INR (N - n) 1) by lia. cbn. lra. }
  rewrite E.
  assert (Hpos : 0 < INR (N - n - 1)) by (apply lt_0_INR; lia).
  destruct (Req_dec_T (INR (N - n - 1)) 0); [lra|reflexivity].
Qed.

Lemma Nm_gt_1 (N n : nat) : (n + 2 <= N)%nat -> 1 < HansenLawSpec.Nm N n.
Proof.
  intros Hn. unfold HansenLawSpec.Nm.
  assert (Hpos : 0 < INR (N - n - 1)) by (apply lt_0_INR; lia).
  replace (INR (N - n)) with (INR (N - n - 1) + 1).
  - apply Rmult_lt_reg_r with (INR (N - n - 1)); [assumption|].
    unfold Rdiv. rewrite Rmult_assoc, Rinv_l by lra. lra.
  - rewrite <- S_INR. f_equal. lia.
Qed.

Lemma math_pow_pos (x y : R) : 0 < x -> math_pow x y = Ok (Rpower x y).
Proof.
  intros Hx. unfold math_pow. destruct (Rlt_dec 0 x); [reflexivity|contradiction].
Qed.

Lemma Gamma_value (Nm l : R) :
  0 < Nm -> Gamma Nm l = Ok (HansenLawSpec.Gamma_spec Nm l).
Proof.
  intros HNm. unfold Gamma, HansenLawSpec.Gamma_spec.
  destruct (Rlt_dec l (-1)) as [Hl|Hl]; [|reflexivity].
  rewrite math_pow_pos by assumption. cbn. unfold Py.div.
  pose proof PI_RGT_0.
  destruct (Req_dec_T (PI * l) 0) as [E|E].
  - exfalso. apply Rmult_integral in E. lra.
  - do 2 f_equal. lra.
Qed.

Lemma X_unfold N g n k :
  HansenLawSpec.X N g n k
  = Rpower (HansenLawSpec.Nm N n) (nth k lam 0) * before N g n k
    + nth k h 0 * HansenLawSpec.Gamma_spec (HansenLawSpec.Nm N n) (nth k lam 0) * g n.
Proof. destruct n; reflexivity. Qed.

Lemma inner_loop (N n : nat) (gp X : vector) :
  (n + 2 <= N)%nat -> length gp = N -> length X = 9%nat ->
  (forall k, (k < 9)%nat -> nth k X 0 = before N (fun i => nth i gp 0) n k) ->
  exists X',
    for_ (range (Np.size h)) X
         (update_X gp (Z.of_nat n) (HansenLawSpec.Nm N n)) = Ok X'
    /\ length X' = 9%nat
    /\ forall k, (k < 9)%nat ->
                 nth k X' 0 = HansenLawSpec.X N (fun i => nth i gp 0) n k.
Proof.
  intros Hn Hgp HX Hbefore.
  pose proof (Nm_gt_1 N n Hn) as HNm.
  set (g := fun i => nth i gp 0) in *.
  destruct (for_range_invariant
              (fun j Y => length Y = 9%nat /\
                 forall k, (k < 9)%nat ->
                   nth k Y 0 = if (k <? j)%nat then HansenLawSpec.X N g n k
                               else before N g n k)
              9 (update_X gp (Z.of_nat n) (HansenLawSpec.Nm N n)) X)
    as (X' & HX' & Hlen & Hnth).
  - split; [assumption|]. intros k Hk. cbn. now apply Hbefore.
  - intros j Y Hj [HY HnY].
    exists (update Y j (HansenLawSpec.X N g n j)). split.
    + unfold update_X.
      rewrite (getitem_nat lam j 0) by (cbn; lia). cbn.
      rewrite math_pow_pos by lra. cbn.
      rewrite (getitem_nat Y j 0) by lia. cbn.
      rewrite (getitem_nat h j 0) by (cbn; lia). cbn.
      rewrite Gamma_value by lra. cbn.
      rewrite (getitem_nat gp n 0) by lia. cbn.
      rewrite setitem_nat by lia. do 2 f_equal.
      rewrite X_unfold, (HnY j Hj), Nat.ltb_irrefl. reflexivity.
    + split; [now rewrite update_length|].
      intros k Hk. rewrite nth_update by lia.
      destruct (Nat.eqb_spec k j) as [->|Hkj].
      * now rewrite (proj2 (Nat.ltb_lt j (Datatypes.S j))) by lia.
      * rewrite (HnY k Hk).
        destruct (Nat.ltb_spec k j), (Nat.ltb_spec k (Datatypes.S j));
          try reflexivity; lia.
  - exists X'. split; [exact HX'|]. split; [assumption|].
    intros k Hk. rewrite (Hnth k Hk).
    now rewrite (proj2 (Nat.ltb_lt k 9)) by assumption.
Qed.

Lemma output_by_index (N : nat) (g : nat -> R) (n : nat) (X : vector) :
  length X = 9%nat ->
  (forall k, (k < 9)%nat -> nth k X 0 = HansenLawSpec.X N g n k) ->
  Np.sum X = HansenLawSpec.out N g n.
Proof.
  intros HX HnX. rewrite sum_by_index, HX. unfold HansenLawSpec.out.
  apply fold_right_ext_in. intros k acc Hk. apply in_seq in Hk.
  rewrite HnX by lia. reflexivity.
Qed.

Lemma outer_loop (N : nat) (gp : vector) :
  (2 <= N)%nat -> length gp = N ->
  exists X A,
    for_ (range (Z.of_nat N - 1)) (Np.zeros (Np.size h), Np.zeros (Z.of_nat N))
         (pixel_step (Z.of_nat N) (Np.size h) gp) = Ok (X, A)
    /\ length A = N
    /\ forall i, (i < N)%nat ->
         nth i A 0 = if (i <? N - 1)%nat
                     then HansenLawSpec.out N (fun i => nth i gp 0) i
                     else 0.
Proof.
  intros HN Hgp.
  set (g := fun i => nth i gp 0).
  replace (Z.of_nat N - 1)%Z with (Z.of_nat (N - 1)) by lia.
  destruct (for_range_invariant
              (fun j (st : vector * vector) =>
                 length (fst st) = 9%nat /\ length (snd st) = N /\
                 (forall k, (k < 9)%nat -> nth k (fst st) 0 = before N g j k) /\
                 (forall i, (i < N)%nat ->
                    nth i (snd st) 0 = if (i <? j)%nat
                                       then HansenLawSpec.out N g i else 0))
              (N - 1) (pixel_step (Z.of_nat N) (Np.size h) gp)
              (Np.zeros (Np.size h), Np.zeros (Z.of_nat N)))
    as ([X A] & Hrun & _ & HA & _ & HnA).
  - cbn [fst snd]. unfold Np.zeros. rewrite Nat2Z.id.
    repeat split.
    + now rewrite repeat_length.
    + intros k Hk. cbn [before]. apply nth_repeat.
    + intros i Hi. cbn. apply nth_repeat.
  - intros j [X A] Hj (HX & HA & HnX & HnA). cbn [fst snd] in *.
    destruct (inner_loop N j gp X) as (X' & HX' & HlX' & HnX');
      try assumption; try lia.
    exists (X', update A j (HansenLawSpec.out N g j)). split.
    + unfold pixel_step. rewrite Nm_value by lia. cbn [Py.bind].
      rewrite HX'. cbn [Py.bind]. rewrite setitem_nat by lia. cbn [Py.bind].
      now rewrite (output_by_index N g j X').
    + cbn [fst snd]. repeat split.
      * assumption.
      * now rewrite update_length.
      * intros k Hk. cbn [before]. now apply HnX'.
      * intros i Hi. rewrite nth_update by lia.
        destruct (Nat.eqb_spec i j) as [->|Hij].
        -- now rewrite (proj2 (Nat.ltb_lt j (Datatypes.S j))) by lia.
        -- rewrite (HnA i Hi).
           destruct (Nat.ltb_spec i j), (Nat.ltb_spec i (Datatypes.S j));
             try reflexivity; lia.
  - exists X, A. split; [exact Hrun|]. split; [exact HA|exact HnA].
Qed.

Lemma gradient_value (f : vector) :
  (2 <= length f)%nat ->
  Np.gradient f
  = Ok ((nth 1 f 0 - nth 0 f 0)
          :: map (fun d => d / 2) (Np.sub (Np.from 2 f) (Np.upto_last 2 f))
          ++ [nth (length f - 1) f 0 - nth (length f - 2) f 0]).
Proof.
  intros H2. unfold Np.gradient, Np.size, len.
  destruct (Z.ltb_spec (Z.of_nat (length f)) 2) as [|Hlen]; [lia|].
  change (getitem f 0) with (getitem f (Z.of_nat 0)).
  change (getitem f 1) with (getitem f (Z.of_nat 1)).
  change (getitem f (-1)) with (getitem f (- Z.of_nat 1)).
  change (getitem f (-2)) with (getitem f (- Z.of_nat 2)).
  rewrite (getitem_nat f 0 0), (getitem_nat f 1 0) by lia.
  rewrite (getitem_from_end f 1 0), (getitem_from_end f 2 0) by lia.
  reflexivity.
Qed.

Lemma gradient_short (f : vector) :
  (length f < 2)%nat -> Np.gradient f = Raise ValueError.
Proof.
  intros H2. unfold Np.gradient, Np.size, len.
  destruct (Z.ltb_spec (Z.of_nat (length f)) 2) as [|Hlen]; [reflexivity|lia].
Qed.

Lemma sub_length (a b : vector) :
  length (Np.sub a b) = Nat.min (length a) (length b).
Proof.
  revert b. induction a as [|x a IH]; intros [|y b]; cbn; auto.
Qed.

Lemma from_length (k : nat) (a : vector) :
  length (Np.from k a) = (length a - k)%nat.
Proof. apply length_skipn. Qed.

Lemma upto_last_length (k : nat) (a : vector) :
  length (Np.upto_last k a) = (length a - k)%nat.
Proof. unfold Np.upto_last. rewrite length_firstn. lia. Qed.

Lemma gradient_length (f g : vector) :
  Np.gradient f = Ok g -> length g = length f /\ (2 <= length f)%nat.
Proof.
  intros Hg.
  destruct (Nat.lt_ge_cases (length f) 2) as [Hs|H2].
  - rewrite gradient_short in Hg by assumption. discriminate.
  - rewrite gradient_value in Hg by assumption.
    assert (E : g = (nth 1 f 0 - nth 0 f 0)
          :: map (fun d => d / 2) (Np.sub (Np.from 2 f) (Np.upto_last 2 f))
          ++ [nth (length f - 1) f 0 - nth (length f - 2) f 0])
      by congruence.
    split; [|assumption]. rewrite E.
    cbn [length]. rewrite length_app, length_map, sub_length.
    rewrite from_length, upto_last_length. cbn [length]. lia.
Qed.

(** The transform is the gradient followed by the recursion on it. *)
Lemma transform_of_gradient (row gp : vector) :
  Np.gradient row = Ok gp ->
  iabel_hansenlaw_transform row = Ok (HansenLawSpec.row (length row) gp).
Proof.
  intros Hgp. destruct (gradient_length _ _ Hgp) as [Hlen HN].
  set (N := length row) in *.
  unfold iabel_hansenlaw_transform. rewrite Hgp. cbn [Py.bind].
  change (Np.size row) with (Z.of_nat N).
  destruct (outer_loop N gp HN Hlen) as (X & A & Hrun & HA & HnA).
  rewrite Hrun. cbn [Py.bind].
  replace (Z.of_nat N - 2)%Z with (Z.of_nat (N - 2)) by lia.
  replace (Z.of_nat N - 1)%Z with (Z.of_nat (N - 1)) by lia.
  rewrite (getitem_nat A (N - 2) 0) by lia. cbn [Py.bind].
  rewrite setitem_nat by lia. cbn [Py.bind]. f_equal.
  unfold Np.neg, HansenLawSpec.row.
  set (out := fun n => - HansenLawSpec.out N (fun i => nth i gp 0)
                          (if (n <? N - 1)%nat then n else (N - 2)%nat)).
  apply nth_ext with (d := - 0) (d' := out 0%nat).
  - now rewrite !length_map, update_length, length_seq.
  - intros i Hi. rewrite length_map, update_length, HA in Hi.
    rewrite !map_nth, seq_nth by assumption. cbn [Nat.add].
    rewrite nth_update by lia. unfold out.
    destruct (Nat.eqb_spec i (N - 1)) as [->|Hi'].
    + rewrite Nat.ltb_irrefl, (HnA (N - 2)%nat) by lia.
      now rewrite (proj2 (Nat.ltb_lt (N - 2) (N - 1))) by lia.
    + rewrite (HnA i Hi).
      now rewrite (proj2 (Nat.ltb_lt i (N - 1))) by lia.
Qed.

(** * Shapes *)

Lemma shape_shaped (a : matrix) (N M : Z) :
  Np2.shape a = Ok (N, M) ->
  exists p q, N = Z.of_nat p /\ M = Z.of_nat q /\ (1 <= p)%nat /\ shaped p q a.
Proof.
  destruct a as [|r rest]; cbn; [discriminate|].
  destruct (forallb _ rest) eqn:E; [|discriminate].
  intros [= <- <-]. exists (Datatypes.S (length rest)), (length r).
  unfold len. cbn [length]. repeat split; try lia.
  constructor; [reflexivity|].
  rewrite forallb_forall in E. apply Forall_forall. intros r' Hr'.
  now apply Nat.eqb_eq, E.
Qed.

Lemma shaped_shape (p q : nat) (a : matrix) :
  (1 <= p)%nat -> shaped p q a -> Np2.shape a = Ok (Z.of_nat p, Z.of_nat q).
Proof.
  intros Hp [Hlen Hrows]. destruct a as [|r rest]; [cbn in Hlen; lia|].
  inversion Hrows as [|? ? Hr Hrest]; subst. cbn.
  replace (forallb _ rest) with true; [reflexivity|].
  symmetry. apply forallb_forall. intros r' Hr'. apply Nat.eqb_eq.
  rewrite Forall_forall in Hrest. now apply Hrest.
Qed.

Lemma shaped_nth (p q : nat) (a : matrix) (i : nat) :
  shaped p q a -> (i < p)%nat -> length (nth i a []) = q.
Proof.
  intros [Hlen Hrows] Hi. rewrite Forall_forall in Hrows.
  apply Hrows, nth_In. lia.
Qed.

Lemma Forall_take {A : Type} (P : A -> Prop) (k : nat) (l : list A) :
  Forall P l -> Forall P (firstn k l).
Proof.
  intros H. revert k. induction H as [|x l Hx Hl IH]; intros [|k]; cbn;
    constructor; auto.
Qed.

Lemma Forall_drop {A : Type} (P : A -> Prop) (k : nat) (l : list A) :
  Forall P l -> Forall P (skipn k l).
Proof.
  intros H. revert k. induction H as [|x l Hx Hl IH]; intros [|k]; cbn;
    auto.
Qed.

Lemma shaped_firstn (p q k : nat) (a : matrix) :
  shaped p q a -> (k <= p)%nat -> shaped k q (firstn k a).
Proof.
  intros [Hlen Hrows] Hk. split.
  - rewrite length_firstn. lia.
  - now apply Forall_take.
Qed.

Lemma shaped_skipn (p q k : nat) (a : matrix) :
  shaped p q a -> shaped (p - k) q (skipn k a).
Proof.
  intros [Hlen Hrows]. split.
  - rewrite length_skipn. lia.
  - now apply Forall_drop.
Qed.

Lemma shaped_rev (p q : nat) (a : matrix) :
  shaped p q a -> shaped p q (rev a).
Proof.
  intros [Hlen Hrows]. split.
  - now rewrite length_rev.
  - now apply Forall_rev.
Qed.

Lemma shaped_map (p q q' : nat) (f : vector -> vector) (a : matrix) :
  (forall r, length r = q -> length (f r) = q') ->
  shaped p q a -> shaped p q' (map f a).
Proof.
  intros Hf [Hlen Hrows]. split.
  - now rewrite length_map.
  - apply Forall_map. revert Hrows. apply Forall_impl. exact Hf.
Qed.

Lemma shaped_app (p p' q : nat) (a b : matrix) :
  shaped p q a -> shaped p' q b -> shaped (p + p') q (a ++ b).
Proof.
  intros [Hla Ha] [Hlb Hb]. split.
  - rewrite length_app. lia.
  - apply Forall_app. now split.
Qed.

(** * Splitting and the four quadrants *)

Lemma array_split_app {A : Type} (l : list A) :
  fst (Np2.array_split l) ++ snd (Np2.array_split l) = l.
Proof. unfold Np2.array_split. cbn. apply firstn_skipn. Qed.

Lemma half_even (n : nat) : (2 * n / 2 + 2 * n mod 2 = n)%nat.
Proof.
  rewrite (Nat.mul_comm 2 n), Nat.div_mul, Nat.Div0.mod_mul by lia. lia.
Qed.

Lemma array_split_even {A : Type} (l : list A) (p : nat) :
  length l = (2 * p)%nat -> Np2.array_split l = (firstn p l, skipn p l).
Proof. intros Hl. unfold Np2.array_split. now rewrite Hl, half_even. Qed.

(** The quadrants of an image of [2 * p] rows. *)
Lemma decompose_even (p : nat) (data : matrix) :
  length data = (2 * p)%nat ->
  decompose data
  = (Np2.fliplr (firstn p (map (fun r => snd (Np2.array_split r)) data)),
     firstn p (map (fun r => fst (Np2.array_split r)) data),
     Np2.flipud (skipn p (map (fun r => fst (Np2.array_split r)) data)),
     Np2.fliplr (Np2.flipud
                   (skipn p (map (fun r => snd (Np2.array_split r)) data)))).
Proof.
  intros Hlen. unfold decompose, Np2.array_split_axis1, Np2.array_split_axis0.
  rewrite !(array_split_even _ p) by now rewrite length_map.
  reflexivity.
Qed.

Lemma nth_map_seq {A : Type} (f : nat -> A) (n i : nat) (d : A) :
  (i < n)%nat -> nth i (map f (seq 0 n)) d = f i.
Proof.
  intros Hi. rewrite (nth_indep _ d (f 0%nat))
    by (rewrite length_map, length_seq; lia).
  now rewrite map_nth, seq_nth.
Qed.

Lemma rows_of_firstn (Q : matrix) (n : nat) :
  (n <= length Q)%nat -> rows_of Q (Z.of_nat n) = Ok (firstn n Q).
Proof.
  intros Hn. unfold rows_of. rewrite range_of_nat.
  rewrite (map__ok _ (fun z => nth (Z.to_nat z) Q [])).
  - f_equal. rewrite map_map. apply nth_ext with (d := []) (d' := []).
    + rewrite length_map, length_seq, length_firstn. lia.
    + intros i Hi. rewrite length_map, length_seq in Hi.
      rewrite nth_map_seq by assumption.
      rewrite Nat2Z.id, nth_firstn.
      now rewrite (proj2 (Nat.ltb_lt i n)) by assumption.
  - intros z Hz. apply in_map_iff in Hz as (k & <- & Hk). apply in_seq in Hk.
    rewrite Nat2Z.id. apply getitem_nat. lia.
Qed.

Lemma rows_of_exact (Q : matrix) (p : nat) :
  length Q = p -> rows_of Q (Z.of_nat p) = Ok Q.
Proof.
  intros <-. rewrite rows_of_firstn by lia. now rewrite firstn_all.
Qed.

(** * Putting the quadrants together again *)

Lemma combine_map_same {A B C : Type} (f : A -> B) (g : A -> C) (l : list A) :
  combine (map f l) (map g l) = map (fun x => (f x, g x)) l.
Proof. induction l as [|x l IH]; cbn; [reflexivity|now rewrite IH]. Qed.

Lemma concatenate_axis1_same (f g : vector -> vector) (a : matrix) :
  Np2.concatenate_axis1 (map f a) (map g a) = Ok (map (fun r => f r ++ g r) a).
Proof.
  unfold Np2.concatenate_axis1. rewrite !length_map, Nat.eqb_refl.
  now rewrite combine_map_same, map_map.
Qed.

Lemma fliplr_fliplr (a : matrix) : Np2.fliplr (Np2.fliplr a) = a.
Proof.
  unfold Np2.fliplr. rewrite map_map. rewrite <- (map_id a) at 2.
  apply map_ext. intros r. apply rev_involutive.
Qed.

Lemma fliplr_rows_value (a : matrix) :
  a <> [] -> Np2.fliplr_rows a = Ok (Np2.fliplr a).
Proof. destruct a; [congruence|reflexivity]. Qed.

Lemma ncols_shaped (p q : nat) (a : matrix) :
  (1 <= p)%nat -> shaped p q a -> Np2.ncols a = Z.of_nat q.
Proof.
  intros Hp [Hlen Hrows]. destruct a as [|r a]; [cbn in Hlen; lia|].
  inversion Hrows; subst. reflexivity.
Qed.

Lemma flipud_flipud (a : matrix) : Np2.flipud (Np2.flipud a) = a.
Proof. apply rev_involutive. Qed.

Lemma fliplr_flipud (a : matrix) :
  Np2.fliplr (Np2.flipud a) = Np2.flipud (Np2.fliplr a).
Proof. unfold Np2.fliplr, Np2.flipud. apply map_rev. Qed.

Lemma flipud_map (f : vector -> vector) (a : matrix) :
  Np2.flipud (map f a) = map f (Np2.flipud a).
Proof. unfold Np2.flipud. symmetry. apply map_rev. Qed.

(** The quadrants in terms of the upper and the lower half. *)
Lemma decompose_halves (p : nat) (data : matrix) :
  length data = (2 * p)%nat ->
  decompose data
  = (Np2.fliplr (map (fun r => snd (Np2.array_split r)) (firstn p data)),
     map (fun r => fst (Np2.array_split r)) (firstn p data),
     Np2.flipud (map (fun r => fst (Np2.array_split r)) (skipn p data)),
     Np2.fliplr (Np2.flipud
                   (map (fun r => snd (Np2.array_split r)) (skipn p data)))).
Proof.
  intros Hlen. rewrite (decompose_even p) by assumption.
  now rewrite !firstn_map, !skipn_map.
Qed.

(** Decomposing and reassembling, with the rows left as they are. *)
Lemma round_trip (p q : nat) (data : matrix) :
  (1 <= p)%nat -> shaped (2 * p) q data ->
  let '(Q0, Q1, Q2, Q3) := decompose data in
  (A0 <- rows_of Q0 (Z.of_nat p) ;;
   A1 <- rows_of Q1 (Z.of_nat p) ;;
   A2 <- rows_of Q2 (Z.of_nat p) ;;
   A3 <- rows_of Q3 (Z.of_nat p) ;;
   reassemble A0 A1 A2 A3) = Ok data.
Proof.
  intros Hp Hshape. pose proof Hshape as [Hlen Hrows].
  rewrite (decompose_halves p) by assumption.
  set (lft := fun r : vector => fst (Np2.array_split r)).
  set (rgt := fun r : vector => snd (Np2.array_split r)).
  assert (Htop : length (firstn p data) = p) by (rewrite length_firstn; lia).
  assert (Hbot : length (skipn p data) = p) by (rewrite length_skipn; lia).
  set (T := firstn p data) in *. set (B := skipn p data) in *.
  rewrite (rows_of_exact (Np2.fliplr (map rgt T)))
    by (unfold Np2.fliplr; now rewrite !length_map).
  rewrite (rows_of_exact (map lft T)) by now rewrite length_map.
  rewrite (rows_of_exact (Np2.flipud (map lft B)))
    by (unfold Np2.flipud; now rewrite length_rev, length_map).
  rewrite (rows_of_exact (Np2.fliplr (Np2.flipud (map rgt B))))
    by (unfold Np2.fliplr, Np2.flipud;
        now rewrite length_map, length_rev, length_map).
  cbn [Py.bind]. unfold reassemble.
  assert (Hne : forall a : matrix, length a = p -> a <> []).
  { intros a Ha ->. cbn in Ha. lia. }
  rewrite (fliplr_rows_value (Np2.fliplr (map rgt T)))
    by (apply Hne; unfold Np2.fliplr; now rewrite !length_map).
  rewrite (fliplr_rows_value (Np2.fliplr (Np2.flipud (map rgt B))))
    by (apply Hne; unfold Np2.fliplr, Np2.flipud;
        now rewrite length_map, length_rev, length_map).
  rewrite !fliplr_fliplr.
  cbn [Py.bind].
  rewrite concatenate_axis1_same. cbn [Py.bind].
  rewrite !flipud_map, concatenate_axis1_same. cbn [Py.bind].
  rewrite flipud_map, flipud_flipud.
  assert (Hid : forall a : matrix, map (fun r => lft r ++ rgt r) a = a).
  { intros a. rewrite <- (map_id a) at 2. apply map_ext. intros r.
    apply array_split_app. }
  rewrite !Hid. unfold Np2.concatenate_axis0.
  rewrite (ncols_shaped p q T), (ncols_shaped p q B), Z.eqb_refl; try assumption.
  - f_equal. apply firstn_skipn.
  - replace p with (2 * p - p)%nat at 1 by lia. now apply shaped_skipn.
  - apply shaped_firstn with (p := (2 * p)%nat); [assumption|lia].
Qed.

(** * Adding quadrants *)

Lemma zip__map_ {A B C : Type} (f : A -> B -> result C) (a : list A) (b : list B) :
  Np2.zip_ f a b = map_ (fun p => f (fst p) (snd p)) (combine a b).
Proof.
  revert b. induction a as [|x a IH]; intros [|y b]; cbn; try reflexivity.
  now rewrite IH.
Qed.

Lemma broadcast_same_length {A B C : Type} (f : A -> B -> result C)
      (g : A -> B -> C) (a : list A) (b : list B) :
  length a = length b ->
  (forall x y, In (x, y) (combine a b) -> f x y = Ok (g x y)) ->
  Np2.broadcast f a b = Ok (map (fun p => g (fst p) (snd p)) (combine a b)).
Proof.
  intros Hlen Hf. unfold Np2.broadcast.
  rewrite (proj2 (Nat.eqb_eq _ _) Hlen), zip__map_.
  apply map__ok. intros [x y] Hxy. now apply Hf.
Qed.

Lemma add_rows_value (a b : vector) :
  length a = length b ->
  Np2.add_rows a b = Ok (map (fun p => fst p + snd p) (combine a b)).
Proof.
  intros Hlen. unfold Np2.add_rows.
  now apply (broadcast_same_length _ Rplus).
Qed.

Lemma nth_combine_map {A B C : Type} (g : A -> B -> C) (a : list A)
      (b : list B) (i : nat) (da : A) (db : B) (dc : C) :
  length a = length b -> (i < length a)%nat ->
  nth i (map (fun p => g (fst p) (snd p)) (combine a b)) dc
  = g (nth i a da) (nth i b db).
Proof.
  intros Hlen Hi.
  rewrite (nth_indep _ dc ((fun p => g (fst p) (snd p)) (da, db)))
    by (rewrite length_map, length_combine; lia).
  rewrite (map_nth (fun p => g (fst p) (snd p))), combine_nth by assumption.
  reflexivity.
Qed.

Lemma add_value (p q : nat) (a b : matrix) :
  shaped p q a -> shaped p q b ->
  exists c, Np2.add a b = Ok c /\ shaped p q c /\
            forall i j, (i < p)%nat -> (j < q)%nat ->
                        entry c i j = entry a i j + entry b i j.
Proof.
  intros Ha Hb. pose proof Ha as [Hla Hra]. pose proof Hb as [Hlb Hrb].
  set (g := fun r r' : vector => map (fun p => fst p + snd p) (combine r r')).
  exists (map (fun p => g (fst p) (snd p)) (combine a b)).
  rewrite Forall_forall in Hra, Hrb.
  split; [|split].
  - unfold Np2.add. apply (broadcast_same_length _ g); [lia|].
    intros x y Hxy. apply add_rows_value.
    rewrite (Hra x), (Hrb y);
      eauto using in_combine_l, in_combine_r.
  - split.
    + rewrite length_map, length_combine. lia.
    + apply Forall_forall. intros r Hr.
      apply in_map_iff in Hr as ([x y] & <- & Hxy). cbn [fst snd]. unfold g.
      rewrite length_map, length_combine.
      rewrite (Hra x), (Hrb y);
        eauto using in_combine_l, in_combine_r. lia.
  - intros i j Hi Hj. unfold entry.
    rewrite (nth_combine_map g a b i [] []) by lia. unfold g.
    rewrite (nth_combine_map Rplus _ _ j 0 0); [reflexivity| |].
    + rewrite (shaped_nth p q a), (shaped_nth p q b); auto.
    + rewrite (shaped_nth p q a); auto.
Qed.

Lemma times_bool_shaped (p q : nat) (a : matrix) (flag : bool) :
  shaped p q a -> shaped p q (Np2.times_bool a flag).
Proof.
  unfold Np2.times_bool. apply shaped_map. intros r Hr. now rewrite length_map.
Qed.

Lemma times_bool_entry (a : matrix) (flag : bool) (i j : nat) :
  entry (Np2.times_bool a flag) i j = selected flag (entry a i j).
Proof.
  unfold entry, Np2.times_bool.
  set (f := fun x : R => x * (if flag then 1 else 0)).
  change (@nil R) with (map f []) at 1. rewrite map_nth.
  replace 0 with (f 0) at 1 by (unfold f; lra). rewrite map_nth.
  unfold f, selected. destruct flag; lra.
Qed.

(** The combined quadrant: the sum of the selected ones. *)
Lemma coadd_value (p q : nat) (quad : selector) (Q0 Q1 Q2 Q3 : matrix) :
  shaped p q Q0 -> shaped p q Q1 -> shaped p q Q2 -> shaped p q Q3 ->
  exists Q, coadd quad (Q0, Q1, Q2, Q3) = Ok Q /\ shaped p q Q /\
    forall i j, (i < p)%nat -> (j < q)%nat ->
      entry Q i j
      = selected (fst (fst (fst quad))) (entry Q0 i j)
        + selected (snd (fst (fst quad))) (entry Q1 i j)
        + selected (snd (fst quad)) (entry Q2 i j)
        + selected (snd quad) (entry Q3 i j).
Proof.
  intros H0 H1 H2 H3. destruct quad as [[[s0 s1] s2] s3]. cbn [fst snd].
  unfold coadd.
  destruct (add_value p q (Np2.times_bool Q0 s0) (Np2.times_bool Q1 s1))
    as (a & Ea & Sa & Va); auto using times_bool_shaped.
  destruct (add_value p q a (Np2.times_bool Q2 s2))
    as (b & Eb & Sb & Vb); auto using times_bool_shaped.
  destruct (add_value p q b (Np2.times_bool Q3 s3))
    as (c & Ec & Sc & Vc); auto using times_bool_shaped.
  exists c. rewrite Ea. cbn [Py.bind]. rewrite Eb. cbn [Py.bind].
  split; [assumption|]. split; [assumption|].
  intros i j Hi Hj.
  rewrite Vc, Vb, Va, !times_bool_entry by assumption. reflexivity.
Qed.

(** * The row transform over the rows of a quadrant *)

Lemma transform_short (row : vector) :
  (length row < 2)%nat -> iabel_hansenlaw_transform row = Raise ValueError.
Proof.
  intros Hs. unfold iabel_hansenlaw_transform.
  now rewrite gradient_short.
Qed.

Lemma spec_row_length (N : nat) (g : vector) :
  length (HansenLawSpec.row N g) = N.
Proof. unfold HansenLawSpec.row. now rewrite length_map, length_seq. Qed.

Lemma transform_defined (row : vector) :
  (2 <= length row)%nat ->
  exists out, iabel_hansenlaw_transform row = Ok out /\ length out = length row.
Proof.
  intros H2. pose proof (gradient_value row H2) as Hg.
  eexists. split; [exact (transform_of_gradient _ _ Hg)|].
  apply spec_row_length.
Qed.

Lemma transform_length (row out : vector) :
  iabel_hansenlaw_transform row = Ok out ->
  length out = length row /\ (2 <= length row)%nat.
Proof.
  intros Hout. destruct (Nat.lt_ge_cases (length row) 2) as [Hs|H2].
  - rewrite transform_short in Hout by assumption. discriminate.
  - destruct (transform_defined row H2) as (out' & E & Hl).
    split; [congruence|assumption].
Qed.

Lemma map_transform_shaped (p q : nat) (a : matrix) :
  shaped p q a -> (2 <= q)%nat ->
  exists A, map_ iabel_hansenlaw_transform a = Ok A /\ shaped p q A.
Proof.
  intros [Hlen Hrows] Hq. revert p Hlen.
  induction Hrows as [|r a Hr Ha IH]; intros p Hlen.
  - exists []. split; [reflexivity|]. split; [assumption|constructor].
  - destruct (transform_defined r) as (out & E & Hl); [lia|].
    destruct (IH (length a) eq_refl) as (A & EA & [HlA HrA]).
    exists (out :: A). cbn. rewrite E. cbn. rewrite EA. cbn.
    split; [reflexivity|]. split.
    + cbn in *. lia.
    + constructor; [lia|assumption].
Qed.

Lemma map_transform_short (p q : nat) (a : matrix) :
  shaped p q a -> (1 <= p)%nat -> (q < 2)%nat ->
  map_ iabel_hansenlaw_transform a = Raise ValueError.
Proof.
  intros [Hlen Hrows] Hp Hq. apply map__raise.
  - intros ->. cbn in Hlen. lia.
  - intros r Hr. apply transform_short.
    rewrite Forall_forall in Hrows. rewrite (Hrows r Hr). assumption.
Qed.

(** * The shape of the reassembled image *)

Lemma concatenate_axis1_shaped (p q q' : nat) (a b : matrix) :
  shaped p q a -> shaped p q' b ->
  exists c, Np2.concatenate_axis1 a b = Ok c /\ shaped p (q + q') c.
Proof.
  intros [Hla Hra] [Hlb Hrb]. unfold Np2.concatenate_axis1.
  rewrite (proj2 (Nat.eqb_eq (length a) (length b))) by lia.
  eexists. split; [reflexivity|]. split.
  - rewrite length_map, length_combine. lia.
  - rewrite Forall_forall in *. intros r Hr.
    apply in_map_iff in Hr as ([x y] & <- & Hxy). cbn [fst snd].
    rewrite length_app, (Hra x), (Hrb y);
      eauto using in_combine_l, in_combine_r.
Qed.

Lemma fliplr_shaped (p q : nat) (a : matrix) :
  shaped p q a -> shaped p q (Np2.fliplr a).
Proof.
  unfold Np2.fliplr. apply shaped_map. intros r Hr. now rewrite length_rev.
Qed.

Lemma reassemble_shaped (p q : nat) (A0 A1 A2 A3 : matrix) :
  (1 <= p)%nat ->
  shaped p q A0 -> shaped p q A1 -> shaped p q A2 -> shaped p q A3 ->
  exists recon, reassemble A0 A1 A2 A3 = Ok recon
                /\ shaped (2 * p) (2 * q) recon.
Proof.
  intros Hp H0 H1 H2 H3. unfold reassemble.
  assert (Hne : forall a : matrix, shaped p q a -> a <> []).
  { intros a [Ha _] ->. cbn in Ha. lia. }
  rewrite !fliplr_rows_value by auto. cbn [Py.bind].
  destruct (concatenate_axis1_shaped p q q A1 (Np2.fliplr A0))
    as (Top & ET & ST); auto using fliplr_shaped.
  destruct (concatenate_axis1_shaped p q q A2 (Np2.fliplr A3))
    as (b & Eb & Sb); auto using fliplr_shaped.
  rewrite ET. cbn [Py.bind]. rewrite Eb. cbn [Py.bind].
  unfold Np2.concatenate_axis0.
  apply shaped_rev in Sb. fold (Np2.flipud b) in Sb.
  rewrite (ncols_shaped p (q + q) Top), (ncols_shaped p (q + q) (Np2.flipud b)),
    Z.eqb_refl by assumption.
  eexists. split; [reflexivity|].
  replace (2 * p)%nat with (p + p)%nat by lia.
  replace (2 * q)%nat with (q + q)%nat by lia.
  now apply shaped_app.
Qed.

Lemma decompose_shaped (p q : nat) (data : matrix) :
  shaped (2 * p) (2 * q) data ->
  let '(Q0, Q1, Q2, Q3) := decompose data in
  shaped p q Q0 /\ shaped p q Q1 /\ shaped p q Q2 /\ shaped p q Q3.
Proof.
  intros Hshape. pose proof Hshape as [Hlen Hrows].
  rewrite (decompose_halves p) by assumption.
  assert (HT : shaped p (2 * q) (firstn p data))
    by (apply shaped_firstn with (p := (2 * p)%nat); [assumption|lia]).
  assert (HB : shaped p (2 * q) (skipn p data)).
  { replace p with (2 * p - p)%nat at 1 by lia. now apply shaped_skipn. }
  assert (Hl : forall r : vector, length r = (2 * q)%nat ->
                 length (fst (Np2.array_split r)) = q).
  { intros r Hr. rewrite (array_split_even r q) by assumption. cbn.
    rewrite length_firstn. lia. }
  assert (Hr : forall r : vector, length r = (2 * q)%nat ->
                 length (snd (Np2.array_split r)) = q).
  { intros r Hr. rewrite (array_split_even r q) by assumption. cbn.
    rewrite length_skipn. lia. }
  split; [|split; [|split]].
  all: unfold Np2.flipud;
    repeat first [ apply fliplr_shaped | apply shaped_rev
                 | apply (shaped_map p (2 * q) q); [assumption|] ];
    assumption.
Qed.

(** * Running in the world *)

Lemma bind_ok {A B : Type} (m : M A) (f : A -> M B) (w : world)
      (a : A) (w' : world) :
  m w = (Ok a, w') -> World.wbind m f w = f a w'.
Proof. intros E. unfold World.wbind. now rewrite E. Qed.

Section Runs.

Variable w0 : world.

Lemma stable_refl : stable w0 w0.
Proof. split; reflexivity. Qed.

Lemma runs_ret {A : Type} (a : A) : runs w0 (ret a) (Ok a).
Proof. intros w Hw. split; [reflexivity|assumption]. Qed.

Lemma runs_lift {A : Type} (r : result A) : runs w0 (lift r) r.
Proof. intros w Hw. split; [reflexivity|assumption]. Qed.

Lemma runs_print (msg : message) : runs w0 (print msg) (Ok tt).
Proof. intros w Hw. split; [reflexivity|exact Hw]. Qed.

Lemma runs_bind {A B : Type} (m : M A) (f : A -> M B)
      (r : result A) (g : A -> result B) :
  runs w0 m r -> (forall a, runs w0 (f a) (g a)) ->
  runs w0 (World.wbind m f) (Py.bind r g).
Proof.
  intros Hm Hf w Hw. destruct (Hm w Hw) as [Hr Hs].
  unfold World.wbind. destruct (m w) as [[a|e] w']; cbn [fst snd] in *;
    subst r; cbn [Py.bind].
  - now apply Hf.
  - split; [reflexivity|assumption].
Qed.

Lemma runs_then {A : Type} (m : M unit) (k : M A) (r : result A) :
  runs w0 m (Ok tt) -> runs w0 k r -> runs w0 (World.wbind m (fun _ => k)) r.
Proof.
  intros Hm Hk. exact (runs_bind m (fun _ => k) (Ok tt) (fun _ => r) Hm (fun _ => Hk)).
Qed.

Lemma runs_time {A : Type} (f : R -> M A) (r : result A) :
  (forall t, runs w0 (f t) r) -> runs w0 (World.wbind time f) r.
Proof.
  intros Hf w Hw. unfold World.wbind, time. apply Hf. exact Hw.
Qed.

Lemma succeeds_ret {A : Type} (a : A) : succeeds w0 (ret a).
Proof. intros w Hw. exists a. split; [reflexivity|assumption]. Qed.

Lemma runs_after {A B : Type} (m : M A) (f : A -> M B) (r : result B) :
  succeeds w0 m -> (forall a, runs w0 (f a) r) ->
  runs w0 (World.wbind m f) r.
Proof.
  intros Hm Hf w Hw. destruct (Hm w Hw) as (a & Ha & Hs).
  unfold World.wbind. destruct (m w) as [r' w']. cbn [fst snd] in *.
  subst r'. now apply Hf.
Qed.

Lemma runs_when (b : bool) (m : M unit) :
  runs w0 m (Ok tt) -> runs w0 (when b m) (Ok tt).
Proof. intros Hm. destruct b; [exact Hm|apply runs_ret]. Qed.

Lemma runs_pool_map {A B : Type} (pool : nat) (p : Z) (f : A -> result B)
      (xs : list A) :
  nth_error (pools w0) pool = Some {| processes := p; state := RUN |} ->
  runs w0 (pool_map pool f xs) (map_ f xs).
Proof.
  intros Hpool w Hw. unfold pool_map. destruct Hw as [Hc Hp].
  rewrite Hp, Hpool. split; [reflexivity|now split].
Qed.

Lemma runs_transform_quadrants (pool : nat) (p : Z) (quad : selector)
      (verbose : bool) (N2 : Z) (Qs : quadrants) :
  nth_error (pools w0) pool = Some {| processes := p; state := RUN |} ->
  runs w0 (transform_quadrants pool quad verbose N2 Qs)
       (transform_quadrants_value quad N2 Qs).
Proof.
  intros Hpool. unfold transform_quadrants, transform_quadrants_value.
  destruct (Np2.any quad).
  - apply runs_then; [apply runs_when, runs_print|].
    apply runs_bind; [apply runs_lift|]. intros Q.
    apply runs_then; [apply runs_when, runs_print|].
    apply runs_bind; [apply runs_lift|]. intros rows.
    apply runs_bind; [now apply runs_pool_map with (p := p)|]. intros A.
    apply runs_ret.
  - destruct Qs as [[[Q0 Q1] Q2] Q3].
    apply runs_then; [apply runs_when, runs_print|].
    apply runs_then; [apply runs_when, runs_print|].
    repeat (apply runs_bind; [apply runs_lift|]; intros ?;
            apply runs_bind; [now apply runs_pool_map with (p := p)|];
            intros ?).
    apply runs_ret.
Qed.

End Runs.

Section OrchestratorFacts.

Context {S : Type} (calculate_speeds : matrix -> Z -> result S).

Lemma iabel_hansenlaw_no_pool (data : matrix) (quad : selector)
      (calc_speeds verbose : bool) (freecpus : Z) (w : world) :
  (cpu_count w - freecpus < 1)%Z ->
  iabel_hansenlaw calculate_speeds data quad calc_speeds verbose freecpus w
  = (Raise ValueError, w).
Proof.
  intros Hp. unfold iabel_hansenlaw, World.wbind at 1 2, mp_cpu_count, mp_Pool.
  now rewrite (proj2 (Z.ltb_lt _ _) Hp).
Qed.

Lemma iabel_hansenlaw_runs (data : matrix) (quad : selector)
      (calc_speeds verbose : bool) (freecpus : Z) (w : world) :
  (1 <= cpu_count w - freecpus)%Z ->
  let run :=
    iabel_hansenlaw calculate_speeds data quad calc_speeds verbose freecpus w
  in
  fst run = iabel_hansenlaw_value calculate_speeds data quad calc_speeds
  /\ cpu_count (snd run) = cpu_count w
  /\ pools (snd run)
     = pools w ++ [{| processes := cpu_count w - freecpus; state := RUN |}].
Proof.
  intros Hp.
  set (p := (cpu_count w - freecpus)%Z) in *.
  set (w0 := {| cpu_count := cpu_count w; clock := clock w; ticks := ticks w;
                stdout := stdout w;
                pools := pools w ++ [{| processes := p; state := RUN |}] |}).
  assert (Hpool : nth_error (pools w0) (length (pools w))
                  = Some {| processes := p; state := RUN |}).
  { cbn. rewrite nth_error_app2, Nat.sub_diag by lia. reflexivity. }
  assert (Hrest : forall (m : M (output S)) r, runs w0 m r ->
            fst (m w0) = r /\ cpu_count (snd (m w0)) = cpu_count w /\
            pools (snd (m w0)) = pools w0).
  { intros m r Hm. destruct (Hm w0 (stable_refl w0)) as [E [Hc Hq]].
    repeat split; assumption. }
  assert (Estart : mp_Pool p w = (Ok (length (pools w)), w0)).
  { unfold mp_Pool. now rewrite (proj2 (Z.ltb_ge _ _) Hp). }
  cbv zeta. unfold iabel_hansenlaw.
  rewrite (bind_ok mp_cpu_count _ w (cpu_count w) w eq_refl). cbv beta.
  fold p. rewrite (bind_ok (mp_Pool p) _ w _ w0 Estart). cbv beta.
  change (pools w ++ [{| processes := p; state := RUN |}]) with (pools w0).
  apply Hrest.
  unfold iabel_hansenlaw_value.
  apply runs_bind; [apply runs_lift|]. intros [N M].
  apply runs_then; [apply runs_when, runs_print|].
  apply runs_time. intros t0.
  apply runs_bind; [now apply runs_transform_quadrants with (p := p)|].
  intros [[[AQ0 AQ1] AQ2] AQ3].
  apply runs_bind; [apply runs_lift|]. intros recon.
  apply runs_then.
  { apply runs_when, runs_time. intros t. apply runs_print. }
  destruct calc_speeds; [|apply runs_ret].
  apply runs_after.
  - destruct verbose; [|apply succeeds_ret].
    intros w' Hw'. unfold World.wbind, print, time. cbn. eauto.
  - intros t1. apply runs_bind; [apply runs_lift|]. intros speeds.
    apply runs_then; [|apply runs_ret].
    apply runs_when, runs_time. intros t. apply runs_print.
Qed.

End OrchestratorFacts.

(** * Rows with the same gradient *)

Lemma sub_shift (c : R) (a b : vector) :
  Np.sub (map (fun x => x + c) a) (map (fun x => x + c) b) = Np.sub a b.
Proof.
  revert b. induction a as [|x a IH]; intros [|y b]; cbn; try reflexivity.
  rewrite IH. f_equal. lra.
Qed.

Lemma nth_shift (c : R) (a : vector) (i : nat) :
  (i < length a)%nat -> nth i (map (fun x => x + c) a) 0 = nth i a 0 + c.
Proof.
  intros Hi.
  rewrite (nth_indep _ 0 (0 + c)) by now rewrite length_map.
  exact (map_nth (fun x => x + c) a 0 i).
Qed.

Lemma gradient_shift (c : R) (row : vector) :
  Np.gradient (map (fun x => x + c) row) = Np.gradient row.
Proof.
  destruct (Nat.lt_ge_cases (length row) 2) as [Hs|H2].
  - rewrite !gradient_short; rewrite ?length_map; auto.
  - rewrite !gradient_value by now rewrite ?length_map.
    rewrite length_map, !nth_shift by lia.
    unfold Np.from, Np.upto_last.
    rewrite length_map, skipn_map, firstn_map, sub_shift.
    do 2 f_equal; [lra|]. do 2 f_equal. lra.
Qed.

Lemma transform_by_gradient (r1 r2 : vector) :
  length r1 = length r2 -> Np.gradient r1 = Np.gradient r2 ->
  iabel_hansenlaw_transform r1 = iabel_hansenlaw_transform r2.
Proof.
  intros Hlen Hg. unfold iabel_hansenlaw_transform, Np.size, len.
  now rewrite Hlen, Hg.
Qed.

Lemma sub_repeat (c : R) (m : nat) :
  Np.sub (repeat c m) (repeat c m) = repeat 0 m.
Proof.
  induction m as [|m IH]; cbn; [reflexivity|]. rewrite IH. f_equal. lra.
Qed.

Lemma gradient_constant (c : R) (N : nat) :
  (2 <= N)%nat -> Np.gradient (repeat c N) = Ok (repeat 0 N).
Proof.
  intros H2. rewrite gradient_value by now rewrite repeat_length.
  rewrite repeat_length, !(nth_repeat_lt c 0) by lia.
  destruct N as [|[|m]]; try lia.
  unfold Np.from, Np.upto_last. rewrite repeat_length.
  replace (Datatypes.S (Datatypes.S m) - 2)%nat with m by lia.
  change (skipn 2 (repeat c (Datatypes.S (Datatypes.S m)))) with (repeat c m).
  replace (firstn m (repeat c (Datatypes.S (Datatypes.S m)))) with (repeat c m).
  - rewrite sub_repeat, map_repeat. f_equal.
    change (repeat 0 (Datatypes.S (Datatypes.S m)))
      with (0 :: 0 :: repeat 0 m).
    rewrite (repeat_cons m 0).
    replace (c - c) with 0 by lra. replace (0 / 2) with 0 by lra.
    reflexivity.
  - clear. induction m as [|m IH]; cbn; [reflexivity|].
    f_equal. exact IH.
Qed.

Lemma spec_X_zero (N : nat) (g : nat -> R) (n k : nat) :
  (forall i, g i = 0) -> HansenLawSpec.X N g n k = 0.
Proof.
  intros Hg. induction n as [|n IH]; cbn [HansenLawSpec.X].
  - rewrite Hg. lra.
  - rewrite IH, Hg. lra.
Qed.

Lemma spec_row_zero (N : nat) :
  HansenLawSpec.row N (repeat 0 N) = repeat 0 N.
Proof.
  unfold HansenLawSpec.row.
  rewrite (map_ext _ (fun _ => 0)).
  - now rewrite map_const, length_seq.
  - intros n. unfold HansenLawSpec.out. cbn [seq fold_right].
    rewrite !spec_X_zero; [lra|..]; intros i; apply nth_repeat.
Qed.

Lemma transform_constant (c : R) (N : nat) :
  (2 <= N)%nat -> iabel_hansenlaw_transform (repeat c N) = Ok (repeat 0 N).
Proof.
  intros H2.
  rewrite (transform_of_gradient _ _ (gradient_constant c N H2)).
  now rewrite repeat_length, spec_row_zero.
Qed.

(** * The claims about the row transform *)

(** C1.  For every row of [N >= 2] samples, [iabel_hansenlaw_transform]
    returns the row the Hansen-Law recursion defines on the numerical
    gradient [g] of the input: accumulators starting at zero and updated
    by [Nm^lam[k] * X[k] + h[k] * Gamma(Nm, lam[k]) * g[n]] with
    [Nm = (N-n)/(N-n-1)], the output at [n <= N-2] the sum of the nine
    accumulators, the output at [N-1] that at [N-2], everything negated;
    the returned row has length [N]. *)
Theorem transform_is_hansen_law_recursion (row : vector) :
  (2 <= length row)%nat ->
  exists g,
    Np.gradient row = Ok g /\ length g = length row /\
    iabel_hansenlaw_transform row = Ok (HansenLawSpec.row (length row) g) /\
    length (HansenLawSpec.row (length row) g) = length row.
Proof.
  intros H2. pose proof (gradient_value row H2) as Hg.
  eexists. split; [exact Hg|].
  split; [exact (proj1 (gradient_length _ _ Hg))|].
  split; [exact (transform_of_gradient _ _ Hg)|apply spec_row_length].
Qed.

Lemma transform_is_hansen_law_recursion_witness :
  exists g,
    Np.gradient [1; 4; 9] = Ok g /\ length g = length [1; 4; 9] /\
    iabel_hansenlaw_transform [1; 4; 9]
    = Ok (HansenLawSpec.row (length [1; 4; 9]) g) /\
    length (HansenLawSpec.row (length [1; 4; 9]) g) = length [1; 4; 9].
Proof.
  apply (transform_is_hansen_law_recursion [1; 4; 9]). cbn. lia.
Defined.

(** C4, as the code has it.  A row of at least two samples, whatever
    their values, is transformed into a row of the same length and
    nothing is raised; a row of fewer than two samples makes
    [np.gradient] raise [ValueError], and the transform with it. *)
Theorem transform_raises_exactly_on_short_rows (row : vector) :
  ((2 <= length row)%nat ->
   exists out, iabel_hansenlaw_transform row = Ok out
               /\ length out = length row)
  /\ ((length row < 2)%nat ->
      iabel_hansenlaw_transform row = Raise ValueError).
Proof.
  split; [apply transform_defined|apply transform_short].
Qed.

Lemma transform_raises_exactly_on_short_rows_witness :
  (exists out, iabel_hansenlaw_transform [3; 1; 4] = Ok out
               /\ length out = length [3; 1; 4])
  /\ iabel_hansenlaw_transform [3] = Raise ValueError.
Proof.
  split.
  - apply (proj1 (transform_raises_exactly_on_short_rows [3; 1; 4])).
    cbn. lia.
  - apply (proj2 (transform_raises_exactly_on_short_rows [3])).
    cbn. lia.
Defined.

(** C4 as stated fails: the one-sample row [[1]] and the empty row are
    not transformed, the call raises [ValueError]. *)
Lemma short_row_is_not_transformed :
  iabel_hansenlaw_transform [1] = Raise ValueError
  /\ iabel_hansenlaw_transform [] = Raise ValueError
  /\ ~ (forall row : vector,
          (length row < 2)%nat ->
          exists out, iabel_hansenlaw_transform row = Ok out).
Proof.
  split; [reflexivity|]. split; [reflexivity|].
  intros H. destruct (H [1]) as (out & Hout); [cbn; lia|].
  discriminate Hout.
Qed.

(** C6.  With [0 < Nm], [Gamma] divides exactly when [lam < -1], and
    then by a non-zero [pi * lam], and takes the logarithm otherwise.
    In a transform of [N >= 2] samples, at every column [n <= N-2] and
    every term [k < 9]: the quotient [Nm = (N-n)/(N-n-1)] is defined and
    exceeds 1, so the logarithm and the power have a positive argument;
    [lam[k] < -1] and the division is by a non-zero number, or [k = 0],
    [lam[k] = 0] and the logarithm branch is the one taken.  No
    exception is raised on such a row. *)
Theorem Gamma_branch_is_safe :
  (forall Nm l : R,
      0 < Nm ->
      (l < -1 ->
       PI * l <> 0 /\ Gamma Nm l = Ok ((1 - Rpower Nm l) / (PI * l)))
      /\ (~ l < -1 -> Gamma Nm l = Ok (- ln Nm / PI)))
  /\ (forall N n k : nat,
         (2 <= N)%nat -> (n <= N - 2)%nat -> (k < 9)%nat ->
         let Nm := HansenLawSpec.Nm N n in
         let l := nth k lam 0 in
         Py.div (IZR (Z.of_nat N - Z.of_nat n))
                (IZR (Z.of_nat N - Z.of_nat n) - 1.0) = Ok Nm
         /\ 1 < Nm
         /\ getitem lam (Z.of_nat k) = Ok l
         /\ math_pow Nm l = Ok (Rpower Nm l)
         /\ ((l < -1 /\ PI * l <> 0
              /\ Gamma Nm l = Ok ((1 - Rpower Nm l) / (PI * l)))
             \/ (k = 0%nat /\ l = 0 /\ Gamma Nm l = Ok (- ln Nm / PI))))
  /\ (forall row : vector,
         (2 <= length row)%nat ->
         exists out, iabel_hansenlaw_transform row = Ok out).
Proof.
  assert (Hbranch : forall Nm l : R,
      0 < Nm ->
      (l < -1 ->
       PI * l <> 0 /\ Gamma Nm l = Ok ((1 - Rpower Nm l) / (PI * l)))
      /\ (~ l < -1 -> Gamma Nm l = Ok (- ln Nm / PI))).
  { intros Nm l HNm. pose proof PI_RGT_0 as Hpi. split; intros Hl.
    - split.
      + intros E. apply Rmult_integral in E. lra.
      + rewrite Gamma_value by assumption. unfold HansenLawSpec.Gamma_spec.
        destruct (Rlt_dec l (-1)); [reflexivity|contradiction].
    - unfold Gamma. destruct (Rlt_dec l (-1)); [contradiction|reflexivity]. }
  split; [exact Hbranch|]. split.
  - intros N n k HN Hn Hk Nm l.
    assert (HNm : 1 < Nm) by (apply Nm_gt_1; lia).
    split; [apply Nm_value; lia|]. split; [assumption|].
    split; [apply getitem_nat; cbn; lia|].
    split; [apply math_pow_pos; lra|].
    destruct (Hbranch Nm l) as [Hdiv Hlog]; [lra|].
    destruct (lam_cases k Hk) as [[-> Hl0]|Hlt].
    + right. split; [reflexivity|]. split; [exact Hl0|].
      apply Hlog. unfold l. rewrite Hl0. lra.
    + left. split; [exact Hlt|]. apply Hdiv. exact Hlt.
  - intros row H2. destruct (transform_defined row H2) as (out & E & _).
    now exists out.
Qed.

Lemma Gamma_branch_is_safe_witness :
  (PI * -2.1 <> 0
   /\ Gamma 2 (-2.1) = Ok ((1 - Rpower 2 (-2.1)) / (PI * -2.1)))
  /\ Gamma 2 0 = Ok (- ln 2 / PI)
  /\ 1 < HansenLawSpec.Nm 4 1
  /\ exists out, iabel_hansenlaw_transform [1; 4; 9; 16] = Ok out.
Proof.
  destruct Gamma_branch_is_safe as (Hbranch & Hloop & Hrow).
  split; [apply (proj1 (Hbranch 2 (-2.1) ltac:(lra))); lra|].
  split; [apply (proj2 (Hbranch 2 0 ltac:(lra))); lra|].
  split.
  - apply (Hloop 4%nat 1%nat 0%nat); cbn; lia.
  - apply (Hrow [1; 4; 9; 16]). cbn. lia.
Defined.

(** C7.  Adding a constant to every sample of a row of [N >= 2] samples
    leaves the transform unchanged; two rows of equal length and equal
    gradient have the same transform; a constant row of [N >= 2] samples
    is transformed into the all-zero row. *)
Theorem transform_depends_on_gradient_only :
  (forall (row : vector) (c : R),
      (2 <= length row)%nat ->
      iabel_hansenlaw_transform (map (fun x => x + c) row)
      = iabel_hansenlaw_transform row)
  /\ (forall r1 r2 : vector,
         length r1 = length r2 -> Np.gradient r1 = Np.gradient r2 ->
         iabel_hansenlaw_transform r1 = iabel_hansenlaw_transform r2)
  /\ (forall (N : nat) (c : R),
         (2 <= N)%nat ->
         iabel_hansenlaw_transform (repeat c N) = Ok (repeat 0 N)).
Proof.
  split; [|split].
  - intros row c _. apply transform_by_gradient.
    + apply length_map.
    + apply gradient_shift.
  - exact transform_by_gradient.
  - intros N c. apply transform_constant.
Qed.

Lemma transform_depends_on_gradient_only_witness :
  iabel_hansenlaw_transform (map (fun x => x + 10) [1; 4; 9])
  = iabel_hansenlaw_transform [1; 4; 9]
  /\ iabel_hansenlaw_transform [7; 7; 7] = Ok [0; 0; 0].
Proof.
  destruct transform_depends_on_gradient_only as (Hshift & _ & Hconst).
  split.
  - apply (Hshift [1; 4; 9] 10). cbn. lia.
  - apply (Hconst 3%nat 7). lia.
Defined.

(** * Images of even shape *)

Lemma even_shape (data : matrix) (N M : Z) :
  Np2.shape data = Ok (N, M) -> Z.even N = true ->
  exists p q, N = Z.of_nat (2 * p) /\ M = Z.of_nat q /\ (N / 2)%Z = Z.of_nat p
              /\ (1 <= p)%nat /\ shaped (2 * p) q data.
Proof.
  intros Hshape HN.
  destruct (shape_shaped _ _ _ Hshape) as (p0 & q & -> & -> & Hp0 & Hs).
  apply Z.even_spec in HN as [m Hm].
  exists (Z.to_nat m), q.
  assert (E : p0 = (2 * Z.to_nat m)%nat) by lia.
  rewrite <- E.
  split; [reflexivity|]. split; [reflexivity|].
  split; [rewrite Hm, Z.mul_comm, Z.div_mul by lia; lia|].
  split; [lia|assumption].
Qed.

Lemma even_width (q0 : nat) :
  Z.even (Z.of_nat q0) = true -> exists q, q0 = (2 * q)%nat.
Proof.
  intros H. apply Z.even_spec in H as [m Hm]. exists (Z.to_nat m). lia.
Qed.

Lemma transform_quadrants_value_shaped (p q : nat) (quad : selector)
      (Q0 Q1 Q2 Q3 : matrix) :
  (2 <= q)%nat ->
  shaped p q Q0 -> shaped p q Q1 -> shaped p q Q2 -> shaped p q Q3 ->
  exists A0 A1 A2 A3,
    transform_quadrants_value quad (Z.of_nat p) (Q0, Q1, Q2, Q3)
    = Ok (A0, A1, A2, A3)
    /\ shaped p q A0 /\ shaped p q A1 /\ shaped p q A2 /\ shaped p q A3.
Proof.
  intros Hq H0 H1 H2 H3. unfold transform_quadrants_value.
  destruct (Np2.any quad).
  - destruct (coadd_value p q quad Q0 Q1 Q2 Q3) as (Q & EQ & SQ & _);
      try assumption.
    destruct (map_transform_shaped p q Q SQ Hq) as (A & EA & SA).
    exists A, A, A, A. rewrite EQ. cbn [Py.bind].
    rewrite (rows_of_exact Q p) by apply SQ. cbn [Py.bind].
    rewrite EA. cbn [Py.bind]. auto.
  - destruct (map_transform_shaped p q Q0 H0 Hq) as (A0 & E0 & S0).
    destruct (map_transform_shaped p q Q1 H1 Hq) as (A1 & E1 & S1).
    destruct (map_transform_shaped p q Q2 H2 Hq) as (A2 & E2 & S2).
    destruct (map_transform_shaped p q Q3 H3 Hq) as (A3 & E3 & S3).
    exists A0, A1, A2, A3.
    rewrite (rows_of_exact Q0 p) by apply H0. cbn [Py.bind].
    rewrite E0. cbn [Py.bind].
    rewrite (rows_of_exact Q1 p) by apply H1. cbn [Py.bind].
    rewrite E1. cbn [Py.bind].
    rewrite (rows_of_exact Q2 p) by apply H2. cbn [Py.bind].
    rewrite E2. cbn [Py.bind].
    rewrite (rows_of_exact Q3 p) by apply H3. cbn [Py.bind].
    rewrite E3. cbn [Py.bind]. auto.
Qed.

Lemma transform_quadrants_value_short (p q : nat) (quad : selector)
      (Q0 Q1 Q2 Q3 : matrix) :
  (1 <= p)%nat -> (q < 2)%nat ->
  shaped p q Q0 -> shaped p q Q1 -> shaped p q Q2 -> shaped p q Q3 ->
  transform_quadrants_value quad (Z.of_nat p) (Q0, Q1, Q2, Q3)
  = Raise ValueError.
Proof.
  intros Hp Hq H0 H1 H2 H3. unfold transform_quadrants_value.
  destruct (Np2.any quad).
  - destruct (coadd_value p q quad Q0 Q1 Q2 Q3) as (Q & EQ & SQ & _);
      try assumption.
    rewrite EQ. cbn [Py.bind].
    rewrite (rows_of_exact Q p) by apply SQ. cbn [Py.bind].
    now rewrite (map_transform_short p q Q).
  - rewrite (rows_of_exact Q0 p) by apply H0. cbn [Py.bind].
    now rewrite (map_transform_short p q Q0).
Qed.

Section ImageFacts.

Context {S : Type} (calculate_speeds : matrix -> Z -> result S).

(** What the call evaluates to on an image of even shape whose
    quadrant rows have at least two samples. *)
Lemma value_even_shape (p q : nat) (data : matrix) (quad : selector)
      (calc_speeds : bool) :
  (1 <= p)%nat -> (2 <= q)%nat -> shaped (2 * p) (2 * q) data ->
  exists recon,
    shaped (2 * p) (2 * q) recon
    /\ iabel_hansenlaw_value calculate_speeds data quad calc_speeds
       = if calc_speeds
         then speeds <- calculate_speeds recon (Z.of_nat (2 * p)) ;;
              Ok (ReconSpeeds recon speeds)
         else Ok (Recon recon).
Proof.
  intros Hp Hq Hs. unfold iabel_hansenlaw_value.
  rewrite (shaped_shape (2 * p) (2 * q)) by (assumption || lia).
  cbn [Py.bind].
  replace (Z.of_nat (2 * p) / 2)%Z with (Z.of_nat p)
    by (rewrite Nat2Z.inj_mul, Z.mul_comm, Z.div_mul; lia).
  pose proof (decompose_shaped p q data Hs) as HQ.
  destruct (decompose data) as [[[Q0 Q1] Q2] Q3].
  destruct HQ as (H0 & H1 & H2 & H3).
  destruct (transform_quadrants_value_shaped p q quad Q0 Q1 Q2 Q3)
    as (A0 & A1 & A2 & A3 & EA & S0 & S1 & S2 & S3); try assumption.
  rewrite EA. cbn [Py.bind].
  destruct (reassemble_shaped p q A0 A1 A2 A3) as (recon & ER & SR);
    try assumption.
  rewrite ER. cbn [Py.bind]. exists recon. split; [assumption|reflexivity].
Qed.

Lemma value_narrow (p q : nat) (data : matrix) (quad : selector)
      (calc_speeds : bool) :
  (1 <= p)%nat -> (q < 2)%nat -> shaped (2 * p) (2 * q) data ->
  iabel_hansenlaw_value calculate_speeds data quad calc_speeds
  = Raise ValueError.
Proof.
  intros Hp Hq Hs. unfold iabel_hansenlaw_value.
  rewrite (shaped_shape (2 * p) (2 * q)) by (assumption || lia).
  cbn [Py.bind].
  replace (Z.of_nat (2 * p) / 2)%Z with (Z.of_nat p)
    by (rewrite Nat2Z.inj_mul, Z.mul_comm, Z.div_mul; lia).
  pose proof (decompose_shaped p q data Hs) as HQ.
  destruct (decompose data) as [[[Q0 Q1] Q2] Q3].
  destruct HQ as (H0 & H1 & H2 & H3).
  now rewrite (transform_quadrants_value_short p q).
Qed.

Lemma run_value (data : matrix) (quad : selector)
      (calc_speeds verbose : bool) (freecpus : Z) (w : world) :
  fst (iabel_hansenlaw calculate_speeds data quad calc_speeds verbose
                       freecpus w)
  = if (cpu_count w - freecpus <? 1)%Z then Raise ValueError
    else iabel_hansenlaw_value calculate_speeds data quad calc_speeds.
Proof.
  destruct (Z.ltb_spec (cpu_count w - freecpus) 1) as [Hlt|Hge].
  - now rewrite iabel_hansenlaw_no_pool.
  - apply (iabel_hansenlaw_runs calculate_speeds). lia.
Qed.

(** C5.  On an image of even shape [(N, M)], an image that
    [iabel_hansenlaw] returns has shape [(N, M)]; and it does return
    one when the quadrant rows have at least two samples ([M >= 4]),
    the worker pool can be started and [calculate_speeds], if asked
    for, does not raise. *)
Theorem reconstruction_keeps_shape (data : matrix) (quad : selector)
        (calc_speeds verbose : bool) (freecpus : Z) (w : world) (N M : Z) :
  Np2.shape data = Ok (N, M) -> Z.even N = true -> Z.even M = true ->
  let run :=
    iabel_hansenlaw calculate_speeds data quad calc_speeds verbose
                    freecpus w in
  (forall out, fst run = Ok out -> Np2.shape (recon_of out) = Ok (N, M))
  /\ ((4 <= M)%Z -> (1 <= cpu_count w - freecpus)%Z ->
      (calc_speeds = true ->
       forall recon, exists speeds, calculate_speeds recon N = Ok speeds) ->
      exists out, fst run = Ok out
                  /\ Np2.shape (recon_of out) = Ok (N, M)).
Proof.
  intros Hshape HN HM run.
  destruct (even_shape data N M Hshape HN)
    as (p & q0 & EN & EM & _ & Hp & Hs).
  assert (HM' := HM). rewrite EM in HM'.
  destruct (even_width q0 HM') as (q & ->).
  assert (Erun : fst run
                 = if (cpu_count w - freecpus <? 1)%Z then Raise ValueError
                   else iabel_hansenlaw_value calculate_speeds data quad
                                              calc_speeds)
    by apply run_value.
  assert (Hgood : forall recon : matrix,
             shaped (2 * p) (2 * q) recon -> Np2.shape recon = Ok (N, M)).
  { intros recon SR. rewrite EN, EM. apply shaped_shape; [lia|assumption]. }
  split.
  - intros out Hout. rewrite Erun in Hout.
    destruct (cpu_count w - freecpus <? 1)%Z; [discriminate|].
    destruct (Nat.lt_ge_cases q 2) as [Hq|Hq].
    + rewrite (value_narrow p q) in Hout by assumption. discriminate.
    + destruct (value_even_shape p q data quad calc_speeds Hp Hq Hs)
        as (recon & SR & EV).
      rewrite EV in Hout. destruct calc_speeds.
      * destruct (calculate_speeds recon (Z.of_nat (2 * p)));
          [|discriminate].
        injection Hout as <-. now apply Hgood.
      * injection Hout as <-. now apply Hgood.
  - intros HM4 Hpool Hspeeds.
    assert (Hq : (2 <= q)%nat) by lia.
    destruct (value_even_shape p q data quad calc_speeds Hp Hq Hs)
      as (recon & SR & EV).
    rewrite Erun, (proj2 (Z.ltb_ge _ _) Hpool), EV.
    destruct calc_speeds.
    + destruct (Hspeeds eq_refl recon) as (speeds & Es).
      rewrite <- EN, Es. cbn [Py.bind].
      eexists. split; [reflexivity|]. now apply Hgood.
    + eexists. split; [reflexivity|]. now apply Hgood.
Qed.

(** C8.  With everything else fixed, [verbose=True] and
    [verbose=False] give the same result, an exception included. *)
Theorem verbose_does_not_change_the_result (data : matrix)
        (quad : selector) (calc_speeds : bool) (freecpus : Z) (w : world) :
  fst (iabel_hansenlaw calculate_speeds data quad calc_speeds true
                       freecpus w)
  = fst (iabel_hansenlaw calculate_speeds data quad calc_speeds false
                         freecpus w).
Proof. now rewrite !run_value. Qed.

(** C10, as the code has it.  The call first asks for a pool of
    [cpu_count - freecpus] processes.  Below one process the pool
    constructor raises [ValueError] and the call ends there, with
    nothing printed and no pool made.  Otherwise the pool is made
    before anything else, and when the call ends, with a result or
    with an exception, that pool is still running: the function never
    closes or terminates it. *)
Theorem pool_is_started_and_left_running (data : matrix) (quad : selector)
        (calc_speeds verbose : bool) (freecpus : Z) (w : world) :
  let run :=
    iabel_hansenlaw calculate_speeds data quad calc_speeds verbose
                    freecpus w in
  ((cpu_count w - freecpus < 1)%Z -> run = (Raise ValueError, w))
  /\ ((1 <= cpu_count w - freecpus)%Z ->
      pools (snd run)
      = pools w ++ [{| processes := cpu_count w - freecpus;
                       state := RUN |}]).
Proof.
  cbv zeta. split.
  - apply iabel_hansenlaw_no_pool.
  - intros Hp. now apply (iabel_hansenlaw_runs calculate_speeds).
Qed.

End ImageFacts.

(** * What is printed *)

Lemma appends_ret {A : Type} (a : A) : appends (ret a).
Proof. intros w. exists []. cbn. now rewrite app_nil_r. Qed.

Lemma appends_lift {A : Type} (r : result A) : appends (lift r).
Proof. intros w. exists []. cbn. now rewrite app_nil_r. Qed.

Lemma appends_print (msg : message) : appends (print msg).
Proof. intros w. exists [msg]. reflexivity. Qed.

Lemma appends_when (b : bool) (m : M unit) : appends m -> appends (when b m).
Proof. intros Hm. destruct b; [exact Hm|apply appends_ret]. Qed.

Lemma appends_pool_map {A B : Type} (pool : nat) (f : A -> result B)
      (xs : list A) : appends (pool_map pool f xs).
Proof.
  intros w. exists []. unfold pool_map.
  destruct (nth_error (pools w) pool) as [[procs [| |]]|]; cbn;
    now rewrite app_nil_r.
Qed.

Lemma appends_bind {A B : Type} (m : M A) (f : A -> M B) :
  appends m -> (forall a, appends (f a)) -> appends (World.wbind m f).
Proof.
  intros Hm Hf w. destruct (Hm w) as (l & Hl). unfold World.wbind.
  destruct (m w) as [[a|e] w']; cbn [snd] in *.
  - destruct (Hf a w') as (l' & Hl'). exists (l ++ l').
    now rewrite Hl', Hl, app_assoc.
  - now exists l.
Qed.

Lemma printed_first {A : Type} (msg : message) (k : M A) (w : world) :
  appends k ->
  exists l, stdout (snd (World.wbind (when true (print msg)) (fun _ => k) w))
            = stdout w ++ msg :: l.
Proof.
  intros Hk. unfold World.wbind, when, print.
  match goal with
  | |- context [k ?w'] => destruct (Hk w') as (l & Hl)
  end.
  exists l. cbn [snd stdout] in *. rewrite Hl. now rewrite <- app_assoc.
Qed.

(** * Rounding and the centroid *)

Lemma round_is_nearest (x : R) : Rabs (IZR (Py.round x) - x) <= 1 / 2.
Proof.
  unfold Py.round.
  pose proof (base_fp x) as [Hlo Hhi].
  pose proof (Rplus_Int_part_frac_part x) as Hx.
  apply Rabs_le.
  destruct (Rlt_dec (frac_part x) (1 / 2)); [lra|].
  destruct (Rlt_dec (1 / 2) (frac_part x)); [rewrite plus_IZR; lra|].
  destruct (Z.even (Int_part x)); [lra|rewrite plus_IZR; lra].
Qed.

Lemma sum_cons (x : R) (a : vector) : Np.sum (x :: a) = x + Np.sum a.
Proof. now rewrite !sum_fold_right. Qed.

Lemma sum_linear {A : Type} (f g : A -> R) (c : R) (l : list A) :
  Np.sum (map (fun x => f x - c * g x) l)
  = Np.sum (map f l) - c * Np.sum (map g l).
Proof.
  induction l as [|x l IH]; cbn [map].
  - unfold Np.sum. cbn. lra.
  - rewrite !sum_cons, IH. lra.
Qed.

Lemma sum_snd_combine (w : vector) (s : nat) :
  Np.sum (map snd (combine (seq s (length w)) w)) = Np.sum w.
Proof.
  revert s. induction w as [|x w IH]; intros s; cbn [length seq combine map].
  - reflexivity.
  - now rewrite !sum_cons, IH.
Qed.

Lemma moment_weighted (c : R) (w : vector) :
  moment c w = Np2.weighted w - c * Np.sum w.
Proof.
  unfold moment, Np2.weighted.
  rewrite <- (sum_snd_combine w 0), <- sum_linear.
  f_equal. apply map_ext. intros [i x]. cbn [fst snd]. lra.
Qed.

Lemma centroid_balances (data : matrix) :
  Np2.total data <> 0 ->
  Np.sum (map (moment (Np.sum (map Np2.weighted data) / Np2.total data))
              data) = 0
  /\ moment (Np2.weighted (map Np.sum data) / Np2.total data)
            (map Np.sum data) = 0.
Proof.
  intros Hmass. split.
  - rewrite (map_ext _ (fun r => Np2.weighted r
                                 - Np.sum (map Np2.weighted data)
                                   / Np2.total data * Np.sum r))
      by (intros r; apply moment_weighted).
    rewrite sum_linear. fold (Np2.total data). field. exact Hmass.
  - rewrite moment_weighted. fold (Np2.total data). field. exact Hmass.
Qed.

(** * The quotient of the centre of mass *)

Lemma divide_finite (a b : R) : b <> 0 -> Np2.divide a b = Finite (a / b).
Proof.
  intros Hb. unfold Np2.divide. now destruct (Req_dec_T b 0).
Qed.

Lemma divide_by_zero (a b : R) :
  b = 0 ->
  Np2.divide a b = if Req_dec_T a 0 then NaN else Infinity.
Proof.
  intros Hb. unfold Np2.divide. now destruct (Req_dec_T b 0).
Qed.

Lemma center_of_mass_finite (data : matrix) :
  Np2.total data <> 0 ->
  Np2.center_of_mass data
  = (Finite (Np2.weighted (map Np.sum data) / Np2.total data),
     Finite (Np.sum (map Np2.weighted data) / Np2.total data)).
Proof.
  intros Hmass. unfold Np2.center_of_mass. cbv zeta.
  now rewrite !divide_finite.
Qed.

Lemma center_of_mass_not_finite (data : matrix) :
  Np2.total data = 0 ->
  Np2.center_of_mass data
  = (if Req_dec_T (Np2.weighted (map Np.sum data)) 0 then NaN else Infinity,
     if Req_dec_T (Np.sum (map Np2.weighted data)) 0 then NaN else Infinity).
Proof.
  intros Hmass. unfold Np2.center_of_mass. cbv zeta.
  now rewrite !divide_by_zero.
Qed.

Lemma find_center_of_mass_finite (data : matrix)
      (verbose round_output : bool) (w : world) (xc yc : R) :
  Np2.center_of_mass data = (Finite yc, Finite xc) ->
  fst (find_center_by_center_of_mass data verbose round_output w)
  = Ok (if round_output then Pixel (Py.round xc) (Py.round yc)
        else Exact xc yc).
Proof.
  intros E. unfold find_center_by_center_of_mass. rewrite E.
  cbn [fst snd]. now destruct round_output, verbose.
Qed.

Lemma find_center_of_mass_unrounded (data : matrix) (verbose : bool)
      (w : world) :
  fst (find_center_by_center_of_mass data verbose false w)
  = Ok (Exact (snd (Np2.center_of_mass data)) (fst (Np2.center_of_mass data))).
Proof.
  unfold find_center_by_center_of_mass. now destruct verbose.
Qed.

Lemma find_center_of_mass_raises (data : matrix) (verbose : bool)
      (w : world) :
  Np2.total data = 0 ->
  find_center_by_center_of_mass data verbose true w
  = (Raise (if Req_dec_T (Np.sum (map Np2.weighted data)) 0
            then ValueError else OverflowError), w).
Proof.
  intros Hmass. unfold find_center_by_center_of_mass.
  rewrite (center_of_mass_not_finite data Hmass). cbn [fst snd].
  now destruct (Req_dec_T (Np.sum (map Np2.weighted data)) 0).
Qed.

(** * The remaining claims *)

(** C2.  An image of even shape [(N, M)], split into the four oriented
    quadrants and put together again with every quadrant row left as it
    is, is the image itself. *)
Theorem quadrant_round_trip (data : matrix) (N M : Z) :
  Np2.shape data = Ok (N, M) -> Z.even N = true -> Z.even M = true ->
  let '(Q0, Q1, Q2, Q3) := decompose data in
  (A0 <- rows_of Q0 (N / 2)%Z ;;
   A1 <- rows_of Q1 (N / 2)%Z ;;
   A2 <- rows_of Q2 (N / 2)%Z ;;
   A3 <- rows_of Q3 (N / 2)%Z ;;
   reassemble A0 A1 A2 A3) = Ok data.
Proof.
  intros Hshape HN _.
  destruct (even_shape data N M Hshape HN) as (p & q & _ & _ & -> & Hp & Hs).
  exact (round_trip p q data Hp Hs).
Qed.

Lemma quadrant_round_trip_witness :
  let '(Q0, Q1, Q2, Q3) := decompose example_image in
  (A0 <- rows_of Q0 (4 / 2)%Z ;;
   A1 <- rows_of Q1 (4 / 2)%Z ;;
   A2 <- rows_of Q2 (4 / 2)%Z ;;
   A3 <- rows_of Q3 (4 / 2)%Z ;;
   reassemble A0 A1 A2 A3) = Ok example_image.
Proof.
  apply (quadrant_round_trip example_image 4 4); reflexivity.
Defined.

(** * Which rows are transformed *)

Lemma getitem_ok_bound {A : Type} (l : list A) (k : nat) (x : A) :
  getitem l (Z.of_nat k) = Ok x -> (k < length l)%nat.
Proof.
  unfold getitem. destruct (position l (Z.of_nat k)) as [p|] eqn:E;
    [|discriminate].
  intros _. pose proof (position_bound _ _ _ E) as Hp.
  unfold position, len in E.
  destruct ((0 <=? Z.of_nat k) && (Z.of_nat k <? Z.of_nat (length l)))%Z
    eqn:E1.
  - apply andb_true_iff in E1 as [_ H2]. apply Z.ltb_lt in H2. lia.
  - destruct ((- Z.of_nat (length l) <=? Z.of_nat k) && (Z.of_nat k <? 0))%Z
      eqn:E2; [|discriminate].
    apply andb_true_iff in E2 as [_ H2]. apply Z.ltb_lt in H2. lia.
Qed.

Lemma rows_from_inv (Q : matrix) (k s : nat) (rows : list vector) :
  map_ (fun row => getitem Q row) (map Z.of_nat (seq s k)) = Ok rows ->
  k = 0%nat \/ (s + k <= length Q)%nat.
Proof.
  revert s rows. induction k as [|k IH]; intros s rows H; [now left|].
  right. cbn [seq map map_] in H.
  destruct (getitem Q (Z.of_nat s)) as [x|] eqn:Ex; [|discriminate].
  apply getitem_ok_bound in Ex. cbn [Py.bind] in H.
  destruct (map_ (fun row => getitem Q row) (map Z.of_nat (seq (S s) k)))
    as [rest|] eqn:Er; [|discriminate].
  destruct (IH _ _ Er); lia.
Qed.

Lemma rows_of_inv (Q : matrix) (n : Z) (rows : list vector) :
  rows_of Q n = Ok rows ->
  (Z.to_nat n <= length Q)%nat /\ rows = firstn (Z.to_nat n) Q.
Proof.
  intros H.
  assert (Hn : (Z.to_nat n <= length Q)%nat).
  { unfold rows_of, range in H. destruct (rows_from_inv _ _ _ _ H); lia. }
  split; [assumption|].
  assert (E : rows_of Q n = rows_of Q (Z.of_nat (Z.to_nat n))).
  { unfold rows_of, range. now rewrite Nat2Z.id. }
  rewrite E, rows_of_firstn in H by assumption. congruence.
Qed.

Lemma map__nth {A B : Type} (f : A -> result B) (xs : list A) (ys : list B)
      (d : B) :
  map_ f xs = Ok ys ->
  length ys = length xs
  /\ forall i x, nth_error xs i = Some x -> f x = Ok (nth i ys d).
Proof.
  revert ys. induction xs as [|x xs IH]; intros ys H; cbn [map_] in H.
  - injection H as <-. split; [reflexivity|]. now intros [|i].
  - destruct (f x) as [y|] eqn:Ey; [|discriminate]. cbn [Py.bind] in H.
    destruct (map_ f xs) as [rest|]; [|discriminate]. cbn [Py.bind] in H.
    injection H as <-. destruct (IH rest eq_refl) as [Hl Hn].
    split; [cbn; now rewrite Hl|].
    intros [|i] x' Hx; cbn in Hx |- *.
    + now injection Hx as <-.
    + now apply Hn.
Qed.

Lemma transformed_rows_of (Q : matrix) (n : Z) (rows A : list vector) :
  (0 <= n)%Z -> rows_of Q n = Ok rows ->
  map_ iabel_hansenlaw_transform rows = Ok A ->
  transformed_rows n Q A.
Proof.
  intros Hn Hrows HA. apply rows_of_inv in Hrows as [Hlen ->].
  destruct (map__nth _ _ _ [] HA) as [Hl Hnth].
  rewrite length_firstn in Hl.
  split; [unfold len; lia|].
  intros i Hi. exists (nth i Q []). split.
  - apply nth_error_nth'. lia.
  - apply Hnth. rewrite nth_error_firstn.
    replace (i <? Z.to_nat n)%nat with true
      by (symmetry; apply Nat.ltb_lt; lia).
    apply nth_error_nth'. lia.
Qed.

Lemma transform_quadrants_value_coadd (quad : selector) (n : Z)
      (Qs : quadrants) (A0 A1 A2 A3 : list vector) :
  (0 <= n)%Z -> Np2.any quad = true ->
  transform_quadrants_value quad n Qs = Ok (A0, A1, A2, A3) ->
  exists Q, coadd quad Qs = Ok Q /\ transformed_rows n Q A0
            /\ A1 = A0 /\ A2 = A0 /\ A3 = A0.
Proof.
  intros Hn Hany H. unfold transform_quadrants_value in H. rewrite Hany in H.
  destruct (coadd quad Qs) as [Q|]; [|discriminate]. cbn [Py.bind] in H.
  destruct (rows_of Q n) as [rows|] eqn:Er; [|discriminate].
  cbn [Py.bind] in H.
  destruct (map_ iabel_hansenlaw_transform rows) as [A|] eqn:EA;
    [|discriminate].
  cbn [Py.bind] in H. injection H as <- <- <- <-.
  exists Q. split; [reflexivity|].
  split; [exact (transformed_rows_of Q n rows A Hn Er EA)|auto].
Qed.

Lemma transform_quadrants_value_individual (quad : selector) (n : Z)
      (Q0 Q1 Q2 Q3 : matrix) (A0 A1 A2 A3 : list vector) :
  (0 <= n)%Z -> Np2.any quad = false ->
  transform_quadrants_value quad n (Q0, Q1, Q2, Q3) = Ok (A0, A1, A2, A3) ->
  transformed_rows n Q0 A0 /\ transformed_rows n Q1 A1
  /\ transformed_rows n Q2 A2 /\ transformed_rows n Q3 A3.
Proof.
  intros Hn Hany H. unfold transform_quadrants_value in H. rewrite Hany in H.
  destruct (rows_of Q0 n) as [r0|] eqn:Er0; [|discriminate].
  cbn [Py.bind] in H.
  destruct (map_ iabel_hansenlaw_transform r0) as [B0|] eqn:E0;
    [|discriminate].
  cbn [Py.bind] in H.
  destruct (rows_of Q1 n) as [r1|] eqn:Er1; [|discriminate].
  cbn [Py.bind] in H.
  destruct (map_ iabel_hansenlaw_transform r1) as [B1|] eqn:E1;
    [|discriminate].
  cbn [Py.bind] in H.
  destruct (rows_of Q2 n) as [r2|] eqn:Er2; [|discriminate].
  cbn [Py.bind] in H.
  destruct (map_ iabel_hansenlaw_transform r2) as [B2|] eqn:E2;
    [|discriminate].
  cbn [Py.bind] in H.
  destruct (rows_of Q3 n) as [r3|] eqn:Er3; [|discriminate].
  cbn [Py.bind] in H.
  destruct (map_ iabel_hansenlaw_transform r3) as [B3|] eqn:E3;
    [|discriminate].
  cbn [Py.bind] in H. injection H as <- <- <- <-.
  split; [|split; [|split]]; eapply transformed_rows_of; eassumption.
Qed.

Lemma appends_time : appends time.
Proof. intros w. exists []. cbn. now rewrite app_nil_r. Qed.

Lemma transform_quadrants_names_the_path (pool : nat) (quad : selector)
      (N2 : Z) (Qs : quadrants) (w : world) :
  exists l,
    stdout (snd (transform_quadrants pool quad true N2 Qs w))
    = stdout w ++ (if Np2.any quad then CoAdding else Individual) :: l.
Proof.
  unfold transform_quadrants. destruct (Np2.any quad).
  - apply printed_first.
    apply appends_bind; [apply appends_lift|]. intros Q.
    apply appends_bind; [apply appends_when, appends_print|]. intros _.
    apply appends_bind; [apply appends_lift|]. intros rows.
    apply appends_bind; [apply appends_pool_map|]. intros A.
    apply appends_ret.
  - destruct Qs as [[[Q0 Q1] Q2] Q3].
    apply printed_first.
    apply appends_bind; [apply appends_when, appends_print|]. intros _.
    repeat (apply appends_bind; [apply appends_lift|]; intros ?;
            apply appends_bind; [apply appends_pool_map|]; intros ?).
    apply appends_ret.
Qed.

Lemma first_line_of_bind {A B : Type} (m : M A) (f : A -> M B)
      (msg : message) (w : world) :
  (exists l, stdout (snd (m w)) = stdout w ++ msg :: l) ->
  (forall a, appends (f a)) ->
  exists l, stdout (snd (World.wbind m f w)) = stdout w ++ msg :: l.
Proof.
  intros (l & Hl) Hf. unfold World.wbind.
  destruct (m w) as [[a|e] w']; cbn [snd] in *.
  - destruct (Hf a w') as (l' & Hl'). exists (l ++ l').
    rewrite Hl', Hl, <- app_assoc. reflexivity.
  - now exists l.
Qed.

Section CoAdd.

Context {S : Type} (calculate_speeds : matrix -> Z -> result S).

Lemma iabel_hansenlaw_value_inv (data : matrix) (quad : selector)
      (calc_speeds : bool) (N M : Z) (out : output S) :
  Np2.shape data = Ok (N, M) ->
  iabel_hansenlaw_value calculate_speeds data quad calc_speeds = Ok out ->
  exists A0 A1 A2 A3,
    transform_quadrants_value quad (N / 2)%Z (decompose data)
    = Ok (A0, A1, A2, A3)
    /\ reassemble A0 A1 A2 A3 = Ok (recon_of out).
Proof.
  intros Hshape H. unfold iabel_hansenlaw_value in H. rewrite Hshape in H.
  cbn [Py.bind] in H.
  destruct (transform_quadrants_value quad (N / 2)%Z (decompose data))
    as [[[[A0 A1] A2] A3]|]; [|discriminate].
  cbn [Py.bind] in H.
  destruct (reassemble A0 A1 A2 A3) as [recon|] eqn:ER; [|discriminate].
  cbn [Py.bind] in H. exists A0, A1, A2, A3. split; [reflexivity|].
  rewrite ER. destruct calc_speeds.
  - destruct (calculate_speeds recon N); [|discriminate].
    cbn [Py.bind] in H. now injection H as <-.
  - now injection H as <-.
Qed.

Lemma iabel_hansenlaw_first_lines (data : matrix) (quad : selector)
      (calc_speeds : bool) (freecpus : Z) (w : world) (N M : Z) :
  Np2.shape data = Ok (N, M) -> (1 <= cpu_count w - freecpus)%Z ->
  exists l,
    stdout (snd (iabel_hansenlaw calculate_speeds data quad calc_speeds true
                                 freecpus w))
    = stdout w
      ++ ImageSize N M
         :: (if Np2.any quad then CoAdding else Individual) :: l.
Proof.
  intros Hshape Hp.
  set (p := (cpu_count w - freecpus)%Z) in *.
  set (w0 := {| cpu_count := cpu_count w; clock := clock w; ticks := ticks w;
                stdout := stdout w;
                pools := pools w ++ [{| processes := p; state := RUN |}] |}).
  set (w1 := {| cpu_count := cpu_count w; clock := clock w; ticks := ticks w;
                stdout := stdout w ++ [ImageSize N M];
                pools := pools w ++ [{| processes := p; state := RUN |}] |}).
  set (w2 := {| cpu_count := cpu_count w; clock := clock w;
                ticks := Datatypes.S (ticks w);
                stdout := stdout w ++ [ImageSize N M];
                pools := pools w ++ [{| processes := p; state := RUN |}] |}).
  assert (Estart : mp_Pool p w = (Ok (length (pools w)), w0)).
  { unfold mp_Pool. now rewrite (proj2 (Z.ltb_ge _ _) Hp). }
  assert (Eshape : lift (Np2.shape data) w0 = (Ok (N, M), w0)).
  { unfold lift. now rewrite Hshape. }
  unfold iabel_hansenlaw.
  rewrite (bind_ok mp_cpu_count _ w (cpu_count w) w eq_refl). cbv beta.
  fold p. rewrite (bind_ok (mp_Pool p) _ w _ w0 Estart). cbv beta.
  rewrite (bind_ok (lift (Np2.shape data)) _ w0 _ w0 Eshape). cbv beta iota.
  rewrite (bind_ok (when true (print (ImageSize N M))) _ w0 tt w1 eq_refl).
  rewrite (bind_ok time _ w1 (clock w (ticks w)) w2 eq_refl).
  match goal with
  | |- context [World.wbind ?m ?f w2] =>
      destruct (first_line_of_bind m f
                  (if Np2.any quad then CoAdding else Individual) w2)
        as (l & Hl)
  end.
  - apply transform_quadrants_names_the_path.
  - intros [[[AQ0 AQ1] AQ2] AQ3].
    apply appends_bind; [apply appends_lift|]. intros recon.
    apply appends_bind.
    { apply appends_bind; [apply appends_time|]. intros t.
      apply appends_print. }
    intros _. destruct calc_speeds; [|apply appends_ret].
    apply appends_bind.
    { apply appends_bind; [apply appends_print|]. intros _.
      apply appends_bind; [apply appends_time|]. intros t.
      apply appends_ret. }
    intros t1. apply appends_bind; [apply appends_lift|]. intros speeds.
    apply appends_bind; [|intros _; apply appends_ret].
    apply appends_bind; [apply appends_time|]. intros t.
    apply appends_print.
  - exists l. rewrite Hl. cbn [stdout w2]. now rewrite <- app_assoc.
Qed.

Lemma even_image_is_reconstructed (data : matrix) (quad : selector)
      (calc_speeds verbose : bool) (freecpus : Z) (w : world) (N M : Z) :
  Np2.shape data = Ok (N, M) -> Z.even N = true -> Z.even M = true ->
  (4 <= M)%Z -> (1 <= cpu_count w - freecpus)%Z ->
  (calc_speeds = true ->
   forall recon, exists speeds, calculate_speeds recon N = Ok speeds) ->
  exists out,
    fst (iabel_hansenlaw calculate_speeds data quad calc_speeds verbose
                         freecpus w) = Ok out.
Proof.
  intros Hshape HN HM HM4 Hpool Hspeeds.
  destruct (even_shape data N M Hshape HN)
    as (p & q0 & EN & EM & _ & Hp & Hs).
  assert (HM' := HM). rewrite EM in HM'.
  destruct (even_width q0 HM') as (q & ->).
  assert (Hq : (2 <= q)%nat) by lia.
  destruct (value_even_shape calculate_speeds p q data quad calc_speeds
              Hp Hq Hs) as (recon & _ & EV).
  rewrite run_value, (proj2 (Z.ltb_ge _ _) Hpool), EV.
  destruct calc_speeds.
  - destruct (Hspeeds eq_refl recon) as (speeds & Es).
    rewrite <- EN, Es. cbn [Py.bind]. eexists. reflexivity.
  - eexists. reflexivity.
Qed.

(** C3.  On an image of shape [(N, M)], once the pool is running:
    the co-add path is taken exactly when a selector entry is set.  On
    that path the image returned is put together from one list used four
    times, and that list holds, row for row, the transforms of the
    first [N / 2] rows of the combined quadrant and nothing else; the
    samples of the combined quadrant are the sums of the selected
    quadrants' samples.  With no entry set the four lists hold the
    transforms of the first [N / 2] rows of the four quadrants, each on
    its own.  When [verbose] holds the line after the image size names
    the path.  On an image of even shape with [M >= 4] the quadrants have
    [N / 2] rows of [M / 2] samples and the call does return an image,
    [calculate_speeds], if asked for, not raising. *)
Theorem coadd_exactly_when_selected (data : matrix) (quad : selector)
        (calc_speeds verbose : bool) (freecpus : Z) (w : world) (N M : Z) :
  Np2.shape data = Ok (N, M) ->
  (1 <= cpu_count w - freecpus)%Z ->
  let run :=
    iabel_hansenlaw calculate_speeds data quad calc_speeds verbose
                    freecpus w in
  let '(Q0, Q1, Q2, Q3) := decompose data in
  (Np2.any quad = true <-> quad <> (false, false, false, false))
  /\ (Np2.any quad = true ->
      (verbose = true ->
       exists l, stdout (snd run)
                 = stdout w ++ ImageSize N M :: CoAdding :: l)
      /\ forall out, fst run = Ok out ->
           exists Q A,
             coadd quad (Q0, Q1, Q2, Q3) = Ok Q
             /\ transformed_rows (N / 2) Q A
             /\ reassemble A A A A = Ok (recon_of out))
  /\ (Np2.any quad = false ->
      (verbose = true ->
       exists l, stdout (snd run)
                 = stdout w ++ ImageSize N M :: Individual :: l)
      /\ forall out, fst run = Ok out ->
           exists A0 A1 A2 A3,
             transformed_rows (N / 2) Q0 A0
             /\ transformed_rows (N / 2) Q1 A1
             /\ transformed_rows (N / 2) Q2 A2
             /\ transformed_rows (N / 2) Q3 A3
             /\ reassemble A0 A1 A2 A3 = Ok (recon_of out))
  /\ (forall (p q : nat) (P0 P1 P2 P3 : matrix),
         shaped p q P0 -> shaped p q P1 -> shaped p q P2 -> shaped p q P3 ->
         exists Q,
           coadd quad (P0, P1, P2, P3) = Ok Q /\ shaped p q Q /\
           forall i j, (i < p)%nat -> (j < q)%nat ->
             entry Q i j
             = selected (fst (fst (fst quad))) (entry P0 i j)
               + selected (snd (fst (fst quad))) (entry P1 i j)
               + selected (snd (fst quad)) (entry P2 i j)
               + selected (snd quad) (entry P3 i j))
  /\ (Z.even N = true -> Z.even M = true ->
      (let p := Z.to_nat (N / 2) in
       let q := Z.to_nat (M / 2) in
       shaped p q Q0 /\ shaped p q Q1 /\ shaped p q Q2 /\ shaped p q Q3)
      /\ ((4 <= M)%Z ->
          (calc_speeds = true ->
           forall recon, exists speeds, calculate_speeds recon N = Ok speeds) ->
          exists out, fst run = Ok out)).
Proof.
  intros Hshape Hpool run.
  assert (Hhalf : (0 <= N / 2)%Z).
  { destruct (shape_shaped _ _ _ Hshape) as (n & m & -> & _).
    apply Z.div_pos; lia. }
  assert (Hrun : forall out, fst run = Ok out ->
            exists A0 A1 A2 A3,
              transform_quadrants_value quad (N / 2)%Z (decompose data)
              = Ok (A0, A1, A2, A3)
              /\ reassemble A0 A1 A2 A3 = Ok (recon_of out)).
  { intros out Hout. unfold run in Hout.
    rewrite run_value, (proj2 (Z.ltb_ge _ _) Hpool) in Hout.
    exact (iabel_hansenlaw_value_inv data quad calc_speeds N M out
             Hshape Hout). }
  assert (Hlines : verbose = true ->
            exists l, stdout (snd run)
                      = stdout w
                        ++ ImageSize N M
                           :: (if Np2.any quad then CoAdding else Individual)
                           :: l).
  { intros ->. exact (iabel_hansenlaw_first_lines data quad calc_speeds
                        freecpus w N M Hshape Hpool). }
  assert (Heven : Z.even N = true -> Z.even M = true ->
            let '(Q0, Q1, Q2, Q3) := decompose data in
            shaped (Z.to_nat (N / 2)) (Z.to_nat (M / 2)) Q0
            /\ shaped (Z.to_nat (N / 2)) (Z.to_nat (M / 2)) Q1
            /\ shaped (Z.to_nat (N / 2)) (Z.to_nat (M / 2)) Q2
            /\ shaped (Z.to_nat (N / 2)) (Z.to_nat (M / 2)) Q3).
  { intros HN HM.
    destruct (even_shape data N M Hshape HN)
      as (p & q0 & EN & EM & EN2 & Hp & Hs).
    assert (HM' := HM). rewrite EM in HM'.
    destruct (even_width q0 HM') as (q & ->).
    rewrite EN2, EM, Nat2Z.id.
    replace (Z.to_nat (Z.of_nat (2 * q) / 2)) with q
      by (rewrite Nat2Z.inj_mul, Z.mul_comm, Z.div_mul; lia).
    exact (decompose_shaped p q data Hs). }
  destruct (decompose data) as [[[Q0 Q1] Q2] Q3].
  split; [|split; [|split; [|split]]].
  - destruct quad as [[[[|] [|]] [|]] [|]]; cbn; split; congruence.
  - intros Hany. rewrite Hany in Hlines. split; [exact Hlines|].
    intros out Hout. destruct (Hrun out Hout) as (A0 & A1 & A2 & A3 & EV & ER).
    destruct (transform_quadrants_value_coadd quad _ _ A0 A1 A2 A3
                Hhalf Hany EV) as (Q & EQ & HA & -> & -> & ->).
    exists Q, A0. auto.
  - intros Hany. rewrite Hany in Hlines. split; [exact Hlines|].
    intros out Hout. destruct (Hrun out Hout) as (A0 & A1 & A2 & A3 & EV & ER).
    destruct (transform_quadrants_value_individual quad _ _ _ _ _
                A0 A1 A2 A3 Hhalf Hany EV) as (H0 & H1 & H2 & H3).
    exists A0, A1, A2, A3. auto.
  - intros p q P0 P1 P2 P3. apply coadd_value.
  - intros HN HM. split; [exact (Heven HN HM)|].
    intros HM4 Hspeeds.
    exact (even_image_is_reconstructed data quad calc_speeds verbose
             freecpus w N M Hshape HN HM HM4 Hpool Hspeeds).
Qed.

End CoAdd.

Lemma coadd_exactly_when_selected_witness :
  (exists l,
      stdout (snd (iabel_hansenlaw no_speeds example_image
                     (true, false, false, true) false true 1 example_world))
      = stdout example_world ++ ImageSize 4 4 :: CoAdding :: l)
  /\ (exists out,
         fst (iabel_hansenlaw no_speeds example_image
                (true, false, false, true) false true 1 example_world)
         = Ok out)
  /\ (exists l,
         stdout (snd (iabel_hansenlaw no_speeds example_image
                        (false, false, false, false) false true 1
                        example_world))
         = stdout example_world ++ ImageSize 4 4 :: Individual :: l).
Proof.
  assert (Hpool : (1 <= cpu_count example_world - 1)%Z) by (cbn; lia).
  split; [|split].
  - generalize (coadd_exactly_when_selected no_speeds example_image
                  (true, false, false, true) false true 1 example_world
                  4 4 eq_refl Hpool).
    cbv zeta. destruct (decompose example_image) as [[[Q0 Q1] Q2] Q3].
    intros (_ & Hco & _). exact (proj1 (Hco eq_refl) eq_refl).
  - generalize (coadd_exactly_when_selected no_speeds example_image
                  (true, false, false, true) false true 1 example_world
                  4 4 eq_refl Hpool).
    cbv zeta. destruct (decompose example_image) as [[[Q0 Q1] Q2] Q3].
    intros (_ & _ & _ & _ & Heven).
    apply (proj2 (Heven eq_refl eq_refl)); [lia|discriminate].
  - generalize (coadd_exactly_when_selected no_speeds example_image
                  (false, false, false, false) false true 1 example_world
                  4 4 eq_refl Hpool).
    cbv zeta. destruct (decompose example_image) as [[[Q0 Q1] Q2] Q3].
    intros (_ & _ & Hind & _). exact (proj1 (Hind eq_refl) eq_refl).
Defined.

Lemma reconstruction_keeps_shape_witness :
  exists out,
    fst (iabel_hansenlaw no_speeds example_image (true, true, true, true)
                         false true 1 example_world) = Ok out
    /\ Np2.shape (recon_of out) = Ok (4%Z, 4%Z).
Proof.
  apply (proj2 (reconstruction_keeps_shape
                  no_speeds example_image (true, true, true, true)
                  false true 1 example_world 4 4 eq_refl eq_refl eq_refl)).
  - lia.
  - cbn. lia.
  - discriminate.
Defined.

Lemma pool_is_started_and_left_running_witness :
  iabel_hansenlaw no_speeds example_image (true, true, true, true)
                  false true 1 single_core_world
  = (Raise ValueError, single_core_world)
  /\ pools (snd (iabel_hansenlaw no_speeds example_image
                                 (true, true, true, true) false true 1
                                 example_world))
     = pools example_world ++ [{| processes := 4 - 1; state := RUN |}].
Proof.
  split.
  - apply (proj1 (pool_is_started_and_left_running
                    no_speeds example_image (true, true, true, true)
                    false true 1 single_core_world)).
    cbn. lia.
  - apply (proj2 (pool_is_started_and_left_running
                    no_speeds example_image (true, true, true, true)
                    false true 1 example_world)).
    cbn. lia.
Defined.

Lemma example_image_shaped : shaped (2 * 2) (2 * 2) example_image.
Proof. split; [reflexivity|]. repeat constructor. Qed.

(** C10 as stated fails.  On a single-core machine the default call
    raises [ValueError] without making a pool; on a four-core machine
    the call returns an image, and a call on an array that is not an
    image raises, and in both cases the pool of three processes that was
    made at entry is still running when the call has ended. *)
Lemma pool_is_not_torn_down :
  iabel_hansenlaw no_speeds example_image (true, true, true, true)
                  false true 1 single_core_world
  = (Raise ValueError, single_core_world)
  /\ (exists out,
         fst (iabel_hansenlaw no_speeds example_image (true, true, true, true)
                              false true 1 example_world) = Ok out)
  /\ pools (snd (iabel_hansenlaw no_speeds example_image
                                 (true, true, true, true) false true 1
                                 example_world))
     = [{| processes := 3; state := RUN |}]
  /\ fst (iabel_hansenlaw no_speeds [] (true, true, true, true)
                          false true 1 example_world) = Raise ValueError
  /\ pools (snd (iabel_hansenlaw no_speeds [] (true, true, true, true)
                                 false true 1 example_world))
     = [{| processes := 3; state := RUN |}].
Proof.
  split; [reflexivity|]. split; [|split; [|split]].
  - rewrite run_value. cbn [example_world cpu_count].
    destruct (value_even_shape no_speeds 2 2 example_image
                (true, true, true, true) false) as (recon & _ & E);
      [lia|lia|exact example_image_shaped|].
    change (4 - 1 <? 1)%Z with false. cbv iota. rewrite E. now exists (Recon recon).
  - apply (iabel_hansenlaw_runs no_speeds). cbn. lia.
  - reflexivity.
  - reflexivity.
Qed.

(** C9, as the code has it.  Without rounding,
    [find_center_by_center_of_mass] returns the pair of
    [center_of_mass] in reverse: the column coordinate first, the row
    coordinate second.  On an image whose samples do not add up to zero
    both are numbers and the point is the centroid, the first moments of
    the samples about it vanishing along both axes; with [round_output]
    each coordinate is replaced by an integer at most one half away
    from it.  On an image whose samples add up to zero neither
    coordinate is a number: without rounding that pair is returned, and
    with [round_output] the call raises [ValueError] or [OverflowError]
    and prints nothing. *)
Theorem center_of_mass_is_returned_as_x_y (data : matrix) (verbose : bool)
        (w : world) :
  fst (find_center_by_center_of_mass data verbose false w)
  = Ok (Exact (snd (Np2.center_of_mass data)) (fst (Np2.center_of_mass data)))
  /\ (Np2.total data <> 0 ->
      exists xc yc : R,
        Np2.center_of_mass data = (Finite yc, Finite xc)
        /\ fst (find_center_by_center_of_mass data verbose true w)
           = Ok (Pixel (Py.round xc) (Py.round yc))
        /\ Rabs (IZR (Py.round xc) - xc) <= 1 / 2
        /\ Rabs (IZR (Py.round yc) - yc) <= 1 / 2
        /\ Np.sum (map (moment xc) data) = 0
        /\ moment yc (map Np.sum data) = 0)
  /\ (Np2.total data = 0 ->
      (forall x : R, snd (Np2.center_of_mass data) <> Finite x)
      /\ (forall y : R, fst (Np2.center_of_mass data) <> Finite y)
      /\ exists e,
          find_center_by_center_of_mass data verbose true w = (Raise e, w)
          /\ (e = ValueError \/ e = OverflowError)).
Proof.
  split; [apply find_center_of_mass_unrounded|]. split.
  - intros Hmass.
    pose proof (center_of_mass_finite data Hmass) as E.
    destruct (centroid_balances data Hmass) as [Hx Hy].
    eexists _, _. split; [exact E|].
    split; [exact (find_center_of_mass_finite data verbose true w _ _ E)|].
    split; [apply round_is_nearest|]. split; [apply round_is_nearest|].
    split; assumption.
  - intros Hmass. rewrite (center_of_mass_not_finite data Hmass).
    cbn [fst snd]. split; [|split].
    + intros x. now destruct (Req_dec_T (Np.sum (map Np2.weighted data)) 0).
    + intros y. now destruct (Req_dec_T (Np2.weighted (map Np.sum data)) 0).
    + rewrite (find_center_of_mass_raises data verbose w Hmass).
      eexists. split; [reflexivity|].
      destruct (Req_dec_T (Np.sum (map Np2.weighted data)) 0); auto.
Qed.

Lemma dark_image_total : Np2.total dark_image = 0.
Proof. unfold Np2.total, Np.sum. cbn. lra. Qed.

Lemma balanced_image_total : Np2.total balanced_image = 0.
Proof. unfold Np2.total, Np.sum. cbn. lra. Qed.

Lemma example_quadrant_total : Np2.total example_quadrant <> 0.
Proof. unfold Np2.total, Np.sum. cbn. lra. Qed.

Lemma center_of_mass_is_returned_as_x_y_witness :
  (exists xc yc : R,
      Np2.center_of_mass example_quadrant = (Finite yc, Finite xc)
      /\ fst (find_center_by_center_of_mass example_quadrant true true
                                            example_world)
         = Ok (Pixel (Py.round xc) (Py.round yc))
      /\ Np.sum (map (moment xc) example_quadrant) = 0)
  /\ exists e,
      find_center_by_center_of_mass dark_image true true example_world
      = (Raise e, example_world).
Proof.
  split.
  - destruct (center_of_mass_is_returned_as_x_y example_quadrant true
                example_world) as (_ & Hfinite & _).
    destruct (Hfinite example_quadrant_total)
      as (xc & yc & E & Hround & _ & _ & Hbal & _).
    exists xc, yc. split; [exact E|]. split; [exact Hround|exact Hbal].
  - destruct (center_of_mass_is_returned_as_x_y dark_image true
                example_world) as (_ & _ & Hdark).
    destruct (Hdark dark_image_total) as (_ & _ & e & He & _).
    exists e. exact He.
Defined.

(** C9 as stated fails.  With the default [round_output] the call on an
    image without any light raises [ValueError] and returns nothing;
    on an image whose columns cancel it raises [OverflowError].  In
    both cases nothing is printed, although [verbose] holds. *)
Lemma center_of_mass_of_a_dark_image_raises :
  find_center_by_center_of_mass dark_image true true example_world
  = (Raise ValueError, example_world)
  /\ find_center_by_center_of_mass balanced_image true true example_world
     = (Raise OverflowError, example_world).
Proof.
  split.
  - rewrite (find_center_of_mass_raises _ _ _ dark_image_total).
    destruct (Req_dec_T _ 0) as [_|Hne]; [reflexivity|].
    exfalso. apply Hne. unfold Np.sum, Np2.weighted. cbn. lra.
  - rewrite (find_center_of_mass_raises _ _ _ balanced_image_total).
    destruct (Req_dec_T _ 0) as [He|_]; [|reflexivity].
    exfalso. revert He. unfold Np.sum, Np2.weighted. cbn. lra.
Qed.

(** * Beyond the claims *)

(** * More on the row transform *)

Lemma nth_sub (a b : vector) (i : nat) :
  (i < length a)%nat -> (i < length b)%nat ->
  nth i (Np.sub a b) 0 = nth i a 0 - nth i b 0.
Proof.
  revert b i. induction a as [|x a IH]; intros [|y b] [|i] Ha Hb;
    cbn in *; try lia; try reflexivity.
  apply IH; lia.
Qed.

Lemma gradient_pointwise (f : vector) :
  (2 <= length f)%nat ->
  Np.gradient f = Ok (map (grad_at f) (seq 0 (length f))).
Proof.
  intros H2. rewrite gradient_value by assumption. f_equal.
  set (N := length f) in *.
  apply nth_ext with (d := 0) (d' := 0).
  - cbn [length]. rewrite length_app, !length_map, sub_length,
      from_length, upto_last_length, length_seq. cbn [length]. fold N. lia.
  - intros i Hi.
    cbn [length] in Hi.
    rewrite length_app, !length_map, sub_length, from_length,
      upto_last_length in Hi. cbn [length] in Hi. fold N in Hi.
    assert (HiN : (i < N)%nat) by lia.
    rewrite nth_map_seq by assumption. unfold grad_at. fold N.
    destruct i as [|j]; [reflexivity|].
    cbn [nth]. change (Datatypes.S j =? 0)%nat with false. cbv iota.
    destruct (Nat.eqb_spec (Datatypes.S j) (N - 1)) as [E|E].
    + rewrite app_nth2
        by (rewrite length_map, sub_length, from_length, upto_last_length;
            fold N; lia).
      rewrite length_map, sub_length, from_length, upto_last_length. fold N.
      replace (j - Nat.min (N - 2) (N - 2))%nat with 0%nat by lia.
      reflexivity.
    + rewrite app_nth1
        by (rewrite length_map, sub_length, from_length, upto_last_length;
            fold N; lia).
      rewrite (nth_indep _ 0 ((fun d => d / 2) 0))
        by (rewrite length_map, sub_length, from_length, upto_last_length;
            fold N; lia).
      rewrite (map_nth (fun d => d / 2)).
      rewrite nth_sub
        by (rewrite ?from_length, ?upto_last_length; fold N; lia).
      unfold Np.from, Np.upto_last. fold N.
      rewrite nth_skipn, nth_firstn.
      rewrite (proj2 (Nat.ltb_lt j (N - 2))) by lia.
      replace (2 + j)%nat with (Datatypes.S j + 1)%nat by lia.
      replace (Datatypes.S j - 1)%nat with j by lia. reflexivity.
Qed.

Lemma spec_X_ext (N : nat) (g g' : nat -> R) (n k : nat) :
  (forall i, (i <= n)%nat -> g i = g' i) ->
  HansenLawSpec.X N g n k = HansenLawSpec.X N g' n k.
Proof.
  induction n as [|n IH]; intros Hg; cbn [HansenLawSpec.X].
  - now rewrite (Hg 0%nat) by lia.
  - rewrite IH by (intros i Hi; apply Hg; lia).
    now rewrite (Hg (Datatypes.S n)) by lia.
Qed.

Lemma spec_out_ext (N : nat) (g g' : nat -> R) (n : nat) :
  (forall i, (i <= n)%nat -> g i = g' i) ->
  HansenLawSpec.out N g n = HansenLawSpec.out N g' n.
Proof.
  intros Hg. unfold HansenLawSpec.out.
  apply fold_right_ext_in. intros k acc _.
  now rewrite (spec_X_ext N g g' n k Hg).
Qed.

(** The transform, one output sample at a time. *)
Lemma transform_pointwise (row : vector) :
  (2 <= length row)%nat ->
  iabel_hansenlaw_transform row
  = Ok (map (fun n => - HansenLawSpec.out (length row) (grad_at row)
                        (if (n <? length row - 1)%nat then n
                         else (length row - 2)%nat))
            (seq 0 (length row))).
Proof.
  intros H2.
  rewrite (transform_of_gradient _ _ (gradient_pointwise row H2)).
  f_equal. unfold HansenLawSpec.row. apply map_ext_in.
  intros n Hn. apply in_seq in Hn. f_equal.
  apply spec_out_ext. intros i Hi.
  apply nth_map_seq.
  destruct (Nat.ltb_spec n (length row - 1)); lia.
Qed.

Lemma nth_transform (row : vector) (F : nat -> R) (n : nat) :
  (n < length row)%nat ->
  nth n (map F (seq 0 (length row))) 0 = F n.
Proof. apply nth_map_seq. Qed.

(** X1.  The last two samples of a transformed row are equal. *)
Theorem last_output_repeats_the_one_before (row : vector) :
  (2 <= length row)%nat ->
  exists out,
    iabel_hansenlaw_transform row = Ok out
    /\ length out = length row
    /\ nth (length row - 1) out 0 = nth (length row - 2) out 0.
Proof.
  intros H2. eexists. split; [exact (transform_pointwise row H2)|].
  split; [now rewrite length_map, length_seq|].
  rewrite !nth_map_seq by lia.
  rewrite Nat.ltb_irrefl.
  now rewrite (proj2 (Nat.ltb_lt (length row - 2) (length row - 1))) by lia.
Qed.

Lemma last_output_repeats_the_one_before_witness :
  exists out,
    iabel_hansenlaw_transform [1; 4; 9; 16] = Ok out
    /\ length out = length [1; 4; 9; 16]
    /\ nth (length [1; 4; 9; 16] - 1) out 0
       = nth (length [1; 4; 9; 16] - 2) out 0.
Proof.
  apply (last_output_repeats_the_one_before [1; 4; 9; 16]). cbn. lia.
Defined.

(** * Superposition *)

Lemma combination_length (a b : R) (r1 r2 : vector) :
  length r1 = length r2 -> length (combination a b r1 r2) = length r1.
Proof.
  intros H. unfold combination. rewrite length_map, length_combine. lia.
Qed.

Lemma nth_combination (a b : R) (r1 r2 : vector) (i : nat) :
  length r1 = length r2 -> (i < length r1)%nat ->
  nth i (combination a b r1 r2) 0 = a * nth i r1 0 + b * nth i r2 0.
Proof.
  intros Hlen Hi. unfold combination.
  exact (nth_combine_map (fun x y => a * x + b * y) r1 r2 i 0 0 0 Hlen Hi).
Qed.

Lemma grad_at_combination (a b : R) (r1 r2 : vector) (i : nat) :
  length r1 = length r2 -> (2 <= length r1)%nat -> (i < length r1)%nat ->
  grad_at (combination a b r1 r2) i
  = a * grad_at r1 i + b * grad_at r2 i.
Proof.
  intros Hlen H2 Hi. unfold grad_at.
  rewrite combination_length, <- Hlen by assumption.
  destruct (i =? 0)%nat.
  - rewrite !nth_combination by (assumption || lia). lra.
  - destruct (Nat.eqb_spec i (length r1 - 1)).
    + rewrite !nth_combination by (assumption || lia). lra.
    + rewrite !nth_combination by (assumption || lia). lra.
Qed.

Lemma spec_X_linear (N : nat) (a b : R) (g g1 g2 : nat -> R) (n k : nat) :
  (forall i, (i <= n)%nat -> g i = a * g1 i + b * g2 i) ->
  HansenLawSpec.X N g n k
  = a * HansenLawSpec.X N g1 n k + b * HansenLawSpec.X N g2 n k.
Proof.
  induction n as [|n IH]; intros Hg; cbn [HansenLawSpec.X].
  - rewrite (Hg 0%nat) by lia. lra.
  - rewrite IH by (intros i Hi; apply Hg; lia).
    rewrite (Hg (Datatypes.S n)) by lia. lra.
Qed.

Lemma fold_right_linear (a b : R) (F F1 F2 : nat -> R) (l : list nat) :
  (forall k, F k = a * F1 k + b * F2 k) ->
  fold_right (fun k acc => F k + acc) 0 l
  = a * fold_right (fun k acc => F1 k + acc) 0 l
    + b * fold_right (fun k acc => F2 k + acc) 0 l.
Proof.
  intros HF. induction l as [|k l IH]; cbn [fold_right]; [lra|].
  rewrite IH, HF. lra.
Qed.

Lemma spec_out_linear (N : nat) (a b : R) (g g1 g2 : nat -> R) (n : nat) :
  (forall i, (i <= n)%nat -> g i = a * g1 i + b * g2 i) ->
  HansenLawSpec.out N g n
  = a * HansenLawSpec.out N g1 n + b * HansenLawSpec.out N g2 n.
Proof.
  intros Hg. unfold HansenLawSpec.out. apply fold_right_linear.
  intros k. now apply spec_X_linear.
Qed.

(** X2.  The transform is linear: the transform of [a * r1 + b * r2] is
    [a] times the transform of [r1] plus [b] times that of [r2]. *)
Theorem transform_is_linear (a b : R) (r1 r2 : vector) :
  length r1 = length r2 -> (2 <= length r1)%nat ->
  exists o1 o2,
    iabel_hansenlaw_transform r1 = Ok o1
    /\ iabel_hansenlaw_transform r2 = Ok o2
    /\ iabel_hansenlaw_transform (combination a b r1 r2)
       = Ok (combination a b o1 o2).
Proof.
  intros Hlen H2.
  assert (H2' : (2 <= length r2)%nat) by lia.
  assert (Hc : length (combination a b r1 r2) = length r1)
    by now apply combination_length.
  do 2 eexists.
  split; [exact (transform_pointwise r1 H2)|].
  split; [exact (transform_pointwise r2 H2')|].
  rewrite transform_pointwise by lia. f_equal.
  rewrite Hc, <- Hlen. unfold combination at 2.
  rewrite combine_map_same, map_map. apply map_ext_in.
  intros n Hn. apply in_seq in Hn. cbn [fst snd].
  rewrite (spec_out_linear (length r1) a b _ (grad_at r1) (grad_at r2));
    [lra|].
  intros i Hi. apply grad_at_combination; try assumption.
  destruct (Nat.ltb_spec n (length r1 - 1)); lia.
Qed.

Lemma transform_is_linear_witness :
  exists o1 o2,
    iabel_hansenlaw_transform [1; 4; 9] = Ok o1
    /\ iabel_hansenlaw_transform [2; 0; 5] = Ok o2
    /\ iabel_hansenlaw_transform (combination 3 (-1) [1; 4; 9] [2; 0; 5])
       = Ok (combination 3 (-1) o1 o2).
Proof.
  apply (transform_is_linear 3 (-1) [1; 4; 9] [2; 0; 5]);
    [reflexivity|cbn; lia].
Defined.

(** * Signs *)

Lemma h_nonnegative (k : nat) : 0 <= nth k h 0.
Proof.
  do 9 (destruct k as [|k]; [cbn; lra|]). destruct k; cbn; lra.
Qed.

Lemma ln_positive (x : R) : 1 < x -> 0 < ln x.
Proof.
  intros Hx. rewrite <- ln_1. apply ln_increasing; lra.
Qed.

Lemma Rpower_below_one (x l : R) : 1 < x -> l < 0 -> Rpower x l < 1.
Proof.
  intros Hx Hl. unfold Rpower. rewrite <- exp_0. apply exp_increasing.
  pose proof (ln_positive x Hx). nra.
Qed.

Lemma Gamma_spec_negative (Nm l : R) :
  1 < Nm -> l = 0 \/ l < -1 -> HansenLawSpec.Gamma_spec Nm l < 0.
Proof.
  intros HNm Hl. unfold HansenLawSpec.Gamma_spec.
  pose proof PI_RGT_0 as Hpi.
  destruct (Rlt_dec l (-1)) as [Hlt|Hge].
  - pose proof (Rpower_below_one Nm l HNm ltac:(lra)) as Hp.
    assert (Hd : 0 < PI * - l) by nra.
    replace ((1 - Rpower Nm l) / (PI * l))
      with (- ((1 - Rpower Nm l) / (PI * - l)))
      by (field; split; lra).
    assert (0 < (1 - Rpower Nm l) / (PI * - l))
      by (apply Rdiv_lt_0_compat; lra).
    lra.
  - pose proof (ln_positive Nm HNm) as Hln.
    assert (0 < ln Nm / PI) by (apply Rdiv_lt_0_compat; lra).
    replace (- ln Nm / PI) with (- (ln Nm / PI)) by (field; lra). lra.
Qed.

Lemma drive_nonpositive (hk G g : R) :
  0 <= hk -> G < 0 -> 0 <= g -> hk * G * g <= 0.
Proof.
  intros Hh HG Hg. assert (hk * G <= 0) by nra. nra.
Qed.

Lemma spec_X_nonpositive (N : nat) (g : nat -> R) (n k : nat) :
  (n + 2 <= N)%nat -> (k < 9)%nat ->
  (forall i, (i <= n)%nat -> 0 <= g i) ->
  HansenLawSpec.X N g n k <= 0.
Proof.
  intros Hn Hk. induction n as [|n IH]; intros Hg; cbn [HansenLawSpec.X].
  - pose proof (Hg 0%nat ltac:(lia)) as Hg0.
    pose proof (h_nonnegative k) as Hh.
    assert (HG : HansenLawSpec.Gamma_spec (HansenLawSpec.Nm N 0) (nth k lam 0) < 0).
    { apply Gamma_spec_negative; [apply Nm_gt_1; lia|].
      destruct (lam_cases k Hk) as [[_ E]|E]; auto. }
    pose proof (drive_nonpositive _ _ _ Hh HG Hg0). lra.
  - pose proof (Hg (Datatypes.S n) ltac:(lia)) as Hg0.
    pose proof (h_nonnegative k) as Hh.
    assert (HG : HansenLawSpec.Gamma_spec (HansenLawSpec.Nm N (Datatypes.S n))
                                          (nth k lam 0) < 0).
    { apply Gamma_spec_negative; [apply Nm_gt_1; lia|].
      destruct (lam_cases k Hk) as [[_ E]|E]; auto. }
    assert (HX : HansenLawSpec.X N g n k <= 0)
      by (apply IH; [lia|intros i Hi; apply Hg; lia]).
    assert (Hp : 0 < Rpower (HansenLawSpec.Nm N (Datatypes.S n)) (nth k lam 0))
      by apply exp_pos.
    pose proof (drive_nonpositive _ _ _ Hh HG Hg0).
    assert (Rpower (HansenLawSpec.Nm N (Datatypes.S n)) (nth k lam 0)
            * HansenLawSpec.X N g n k <= 0) by nra.
    lra.
Qed.

Lemma spec_out_nonpositive (N : nat) (g : nat -> R) (n : nat) :
  (n + 2 <= N)%nat -> (forall i, (i <= n)%nat -> 0 <= g i) ->
  HansenLawSpec.out N g n <= 0.
Proof.
  intros Hn Hg. unfold HansenLawSpec.out.
  assert (H : forall l : list nat,
             (forall k, In k l -> (k < 9)%nat) ->
             fold_right (fun k acc => HansenLawSpec.X N g n k + acc) 0 l <= 0).
  { induction l as [|k l IH]; intros Hl; cbn [fold_right]; [lra|].
    pose proof (spec_X_nonpositive N g n k Hn (Hl k (or_introl eq_refl)) Hg).
    assert (fold_right (fun k acc => HansenLawSpec.X N g n k + acc) 0 l <= 0)
      by (apply IH; intros k' Hk'; apply Hl; now right).
    lra. }
  apply H. intros k Hk. apply in_seq in Hk. lia.
Qed.

Lemma nondecreasing_far (r : vector) (i j : nat) :
  nondecreasing r -> (i <= j)%nat -> (j < length r)%nat ->
  nth i r 0 <= nth j r 0.
Proof.
  intros Hr Hij Hj. induction j as [|j IH].
  - replace i with 0%nat by lia. lra.
  - destruct (Nat.eq_dec i (Datatypes.S j)) as [->|Hne]; [lra|].
    assert (nth i r 0 <= nth j r 0) by (apply IH; lia).
    pose proof (Hr j ltac:(lia)) as Hstep.
    replace (j + 1)%nat with (Datatypes.S j) in Hstep by lia. lra.
Qed.

Lemma grad_at_nonnegative (r : vector) (i : nat) :
  nondecreasing r -> (2 <= length r)%nat -> (i < length r)%nat ->
  0 <= grad_at r i.
Proof.
  intros Hr H2 Hi. unfold grad_at.
  destruct (i =? 0)%nat.
  - pose proof (nondecreasing_far r 0 1 Hr ltac:(lia) ltac:(lia)). lra.
  - destruct (Nat.eqb_spec i (length r - 1)).
    + pose proof (nondecreasing_far r (length r - 2) (length r - 1) Hr
                    ltac:(lia) ltac:(lia)). lra.
    + pose proof (nondecreasing_far r (i - 1) (i + 1) Hr
                    ltac:(lia) ltac:(lia)). lra.
Qed.

(** X3.  A row whose samples never decrease from one to the next is
    transformed into a row without negative samples. *)
Theorem nondecreasing_row_has_nonnegative_transform (row : vector) :
  (2 <= length row)%nat -> nondecreasing row ->
  exists out,
    iabel_hansenlaw_transform row = Ok out
    /\ Forall (fun y => 0 <= y) out.
Proof.
  intros H2 Hr. eexists. split; [exact (transform_pointwise row H2)|].
  apply Forall_forall. intros y Hy.
  apply in_map_iff in Hy as (n & <- & Hn). apply in_seq in Hn.
  assert (HansenLawSpec.out (length row) (grad_at row)
            (if (n <? length row - 1)%nat then n else (length row - 2)%nat)
          <= 0).
  { apply spec_out_nonpositive.
    - destruct (Nat.ltb_spec n (length row - 1)); lia.
    - intros i Hi. apply grad_at_nonnegative; try assumption.
      destruct (Nat.ltb_spec n (length row - 1)); lia. }
  lra.
Qed.

Lemma nondecreasing_row_has_nonnegative_transform_witness :
  exists out,
    iabel_hansenlaw_transform [1; 4; 4; 9] = Ok out
    /\ Forall (fun y => 0 <= y) out.
Proof.
  apply (nondecreasing_row_has_nonnegative_transform [1; 4; 4; 9]).
  - cbn. lia.
  - intros i Hi. cbn in Hi.
    destruct i as [|[|[|i]]]; cbn; try lra. lia.
Defined.

(** X4.  The output sample at a position [n <= N - 2] is determined by
    the input samples at the positions up to [n + 1]: two rows of the
    same length that agree there have the same output up to [n]. *)
Theorem output_depends_on_the_samples_before (r1 r2 : vector) (m : nat) :
  length r1 = length r2 -> (m + 2 <= length r1)%nat ->
  (forall i, (i <= m + 1)%nat -> nth i r1 0 = nth i r2 0) ->
  exists o1 o2,
    iabel_hansenlaw_transform r1 = Ok o1
    /\ iabel_hansenlaw_transform r2 = Ok o2
    /\ forall n, (n <= m)%nat -> nth n o1 0 = nth n o2 0.
Proof.
  intros Hlen Hm Hagree.
  do 2 eexists.
  split; [apply transform_pointwise; lia|].
  split; [apply transform_pointwise; lia|].
  intros n Hn. rewrite !nth_map_seq by lia. rewrite <- Hlen.
  rewrite (proj2 (Nat.ltb_lt n (length r1 - 1))) by lia.
  f_equal. apply spec_out_ext. intros i Hi. unfold grad_at.
  rewrite <- Hlen.
  destruct (i =? 0)%nat.
  - now rewrite !Hagree by lia.
  - destruct (Nat.eqb_spec i (length r1 - 1)); [lia|].
    now rewrite !Hagree by lia.
Qed.

Lemma output_depends_on_the_samples_before_witness :
  exists o1 o2,
    iabel_hansenlaw_transform [1; 4; 9; 16] = Ok o1
    /\ iabel_hansenlaw_transform [1; 4; 9; 0] = Ok o2
    /\ forall n, (n <= 1)%nat -> nth n o1 0 = nth n o2 0.
Proof.
  apply (output_depends_on_the_samples_before [1; 4; 9; 16] [1; 4; 9; 0] 1).
  - reflexivity.
  - cbn. lia.
  - intros i Hi. destruct i as [|[|[|i]]]; cbn; try reflexivity. lia.
Defined.

(** * The symmetry of a co-added reconstruction *)

Lemma mirrored_row (r : vector) : rev (r ++ rev r) = r ++ rev r.
Proof. now rewrite rev_app_distr, rev_involutive. Qed.

Lemma concatenate_with_mirror (Q : matrix) :
  Np2.concatenate_axis1 Q (Np2.fliplr Q)
  = Ok (map (fun r => r ++ rev r) Q).
Proof.
  unfold Np2.fliplr.
  rewrite <- (map_id Q) at 1.
  exact (concatenate_axis1_same (fun r => r) (@rev R) Q).
Qed.

Lemma reassemble_one_quadrant (A : matrix) (recon : matrix) :
  reassemble A A A A = Ok recon ->
  Np2.fliplr recon = recon /\ Np2.flipud recon = recon.
Proof.
  unfold reassemble. destruct (Np2.fliplr_rows A) as [F|] eqn:EF;
    [|discriminate].
  assert (F = Np2.fliplr A) as ->
    by (destruct A; [discriminate|now injection EF]).
  cbn [Py.bind]. rewrite concatenate_with_mirror. cbn [Py.bind].
  set (Top := map (fun r : vector => r ++ rev r) A).
  unfold Np2.concatenate_axis0.
  destruct (Np2.ncols Top =? Np2.ncols (Np2.flipud Top))%Z; [|discriminate].
  intros [= <-].
  assert (HT : map (@rev R) Top = Top).
  { unfold Top. rewrite map_map. rewrite <- (map_id (map _ A)) at 1.
    rewrite map_map. apply map_ext. intros r. apply mirrored_row. }
  split.
  - unfold Np2.fliplr, Np2.flipud. rewrite map_app, map_rev. now rewrite HT.
  - unfold Np2.flipud. now rewrite rev_app_distr, rev_involutive.
Qed.

Section MoreImageFacts.

Context {S : Type} (calculate_speeds : matrix -> Z -> result S).

(** X5.  With a selector entry set, the image that [iabel_hansenlaw]
    returns is its own mirror image, left to right and top to bottom. *)
Theorem coadded_reconstruction_is_symmetric (data : matrix)
        (quad : selector) (calc_speeds verbose : bool) (freecpus : Z)
        (w : world) (out : output S) :
  Np2.any quad = true ->
  fst (iabel_hansenlaw calculate_speeds data quad calc_speeds verbose
                       freecpus w) = Ok out ->
  Np2.fliplr (recon_of out) = recon_of out
  /\ Np2.flipud (recon_of out) = recon_of out.
Proof.
  intros Hany. rewrite run_value.
  destruct (cpu_count w - freecpus <? 1)%Z; [discriminate|].
  unfold iabel_hansenlaw_value, transform_quadrants_value. rewrite Hany.
  destruct (Np2.shape data) as [[N M]|]; [|discriminate]. cbn [Py.bind].
  destruct (coadd quad (decompose data)) as [Q|]; [|discriminate].
  cbn [Py.bind].
  destruct (rows_of Q (N / 2)) as [rows|]; [|discriminate]. cbn [Py.bind].
  destruct (map_ iabel_hansenlaw_transform rows) as [A|]; [|discriminate].
  cbn [Py.bind].
  destruct (reassemble A A A A) as [recon|] eqn:ER; [|discriminate].
  cbn [Py.bind]. apply reassemble_one_quadrant in ER.
  destruct calc_speeds.
  - destruct (calculate_speeds recon N); [|discriminate].
    cbn [Py.bind]. now intros [= <-].
  - now intros [= <-].
Qed.

End MoreImageFacts.

Lemma coadded_reconstruction_is_symmetric_witness :
  exists out,
    fst (iabel_hansenlaw no_speeds example_image (true, false, false, true)
                         false true 1 example_world) = Ok out
    /\ Np2.fliplr (recon_of out) = recon_of out
    /\ Np2.flipud (recon_of out) = recon_of out.
Proof.
  assert (E : exists out,
             fst (iabel_hansenlaw no_speeds example_image
                    (true, false, false, true) false true 1 example_world)
             = Ok out).
  { rewrite run_value.
    destruct (value_even_shape no_speeds 2 2 example_image
                (true, false, false, true) false) as (recon & _ & E);
      [lia|lia|exact example_image_shaped|].
    change (cpu_count example_world - 1 <? 1)%Z with false. cbv iota.
    rewrite E. now exists (Recon recon). }
  destruct E as (out & E). exists out. split; [exact E|].
  exact (coadded_reconstruction_is_symmetric
           no_speeds example_image (true, false, false, true) false true 1
           example_world out eq_refl E).
Defined.

(** * Images with an odd number of rows *)

Lemma half_odd (n : nat) :
  ((2 * n + 1) / 2 + (2 * n + 1) mod 2 = n + 1)%nat.
Proof.
  replace (2 * n + 1)%nat with (1 + n * 2)%nat by lia.
  rewrite Nat.div_add, Nat.Div0.mod_add by lia. cbn. lia.
Qed.

Lemma array_split_odd {A : Type} (l : list A) (p : nat) :
  length l = (2 * p + 1)%nat ->
  Np2.array_split l = (firstn (p + 1) l, skipn (p + 1) l).
Proof. intros Hl. unfold Np2.array_split. now rewrite Hl, half_odd. Qed.

Lemma odd_shape (data : matrix) (N M : Z) :
  Np2.shape data = Ok (N, M) -> Z.odd N = true ->
  exists p q, N = Z.of_nat (2 * p + 1) /\ M = Z.of_nat q
              /\ (N / 2)%Z = Z.of_nat p /\ shaped (2 * p + 1) q data.
Proof.
  intros Hshape HN.
  destruct (shape_shaped _ _ _ Hshape) as (p0 & q & -> & -> & Hp0 & Hs).
  apply Z.odd_spec in HN as [m Hm].
  exists (Z.to_nat m), q.
  assert (E : p0 = (2 * Z.to_nat m + 1)%nat) by lia.
  rewrite <- E.
  split; [reflexivity|]. split; [reflexivity|].
  split; [|assumption].
  rewrite Hm. replace (2 * m + 1)%Z with (1 + m * 2)%Z by lia.
  rewrite Z.div_add by lia. cbn. lia.
Qed.

(** The quadrants of an image of [2 * p + 1] rows and [2 * q] columns:
    the upper two take the middle row. *)
Lemma decompose_odd_shaped (p q : nat) (data : matrix) :
  shaped (2 * p + 1) (2 * q) data ->
  let '(Q0, Q1, Q2, Q3) := decompose data in
  shaped (p + 1) q Q0 /\ shaped (p + 1) q Q1
  /\ shaped p q Q2 /\ shaped p q Q3.
Proof.
  intros Hshape. pose proof Hshape as [Hlen Hrows].
  unfold decompose, Np2.array_split_axis1, Np2.array_split_axis0.
  rewrite !(array_split_odd _ p) by now rewrite length_map.
  assert (Hl : forall r : vector, length r = (2 * q)%nat ->
                 length (fst (Np2.array_split r)) = q).
  { intros r Hr. rewrite (array_split_even r q) by assumption. cbn.
    rewrite length_firstn. lia. }
  assert (Hr : forall r : vector, length r = (2 * q)%nat ->
                 length (snd (Np2.array_split r)) = q).
  { intros r Hr. rewrite (array_split_even r q) by assumption. cbn.
    rewrite length_skipn. lia. }
  assert (HL : shaped (2 * p + 1) q
                      (map (fun r => fst (Np2.array_split r)) data))
    by now apply (shaped_map (2 * p + 1) (2 * q) q).
  assert (HR : shaped (2 * p + 1) q
                      (map (fun r => snd (Np2.array_split r)) data))
    by now apply (shaped_map (2 * p + 1) (2 * q) q).
  assert (Hbot : forall a : matrix, shaped (2 * p + 1) q a ->
                                    shaped p q (skipn (p + 1) a)).
  { intros a Ha. replace p with (2 * p + 1 - (p + 1))%nat at 1 by lia.
    now apply shaped_skipn. }
  assert (Htop : forall a : matrix, shaped (2 * p + 1) q a ->
                                    shaped (p + 1) q (firstn (p + 1) a)).
  { intros a Ha. apply shaped_firstn with (p := (2 * p + 1)%nat);
      [assumption|lia]. }
  unfold Np2.flipud.
  split; [|split; [|split]];
    repeat first [ apply fliplr_shaped | apply shaped_rev ]; auto.
Qed.

Lemma broadcast_mismatch {A B C : Type} (f : A -> B -> result C)
      (a : list A) (b : list B) :
  length a <> length b -> (2 <= length a)%nat -> (2 <= length b)%nat ->
  Np2.broadcast f a b = Raise ValueError.
Proof.
  intros Hne Ha Hb. unfold Np2.broadcast.
  rewrite (proj2 (Nat.eqb_neq _ _) Hne).
  destruct a as [|x [|x' a]]; cbn in Ha; try lia.
  destruct b as [|y [|y' b]]; cbn in Hb; try lia.
  reflexivity.
Qed.

Section OddRows.

Context {S : Type} (calculate_speeds : matrix -> Z -> result S).

(** X6.  An image of an odd number [N >= 3] of rows and an even number
    [M >= 4] of columns, with no selector entry set, is reconstructed
    into an image of [N - 1] rows and [M] columns. *)
Theorem odd_row_count_loses_a_row (data : matrix) (calc_speeds verbose : bool)
        (freecpus : Z) (w : world) (N M : Z) :
  Np2.shape data = Ok (N, M) -> Z.odd N = true -> (3 <= N)%Z ->
  Z.even M = true -> (4 <= M)%Z -> (1 <= cpu_count w - freecpus)%Z ->
  (calc_speeds = true ->
   forall recon, exists speeds, calculate_speeds recon N = Ok speeds) ->
  exists out,
    fst (iabel_hansenlaw calculate_speeds data (false, false, false, false)
                         calc_speeds verbose freecpus w) = Ok out
    /\ Np2.shape (recon_of out) = Ok ((N - 1)%Z, M).
Proof.
  intros Hshape HN HN3 HM HM4 Hpool Hspeeds.
  destruct (odd_shape data N M Hshape HN) as (p & q0 & EN & EM & EN2 & Hs).
  assert (HM' := HM). rewrite EM in HM'.
  destruct (even_width q0 HM') as (q & ->).
  assert (Hp : (1 <= p)%nat) by lia.
  assert (Hq : (2 <= q)%nat) by lia.
  rewrite run_value, (proj2 (Z.ltb_ge _ _) Hpool).
  unfold iabel_hansenlaw_value. rewrite Hshape. cbn [Py.bind].
  rewrite EN2.
  pose proof (decompose_odd_shaped p q data Hs) as HQ.
  destruct (decompose data) as [[[Q0 Q1] Q2] Q3].
  destruct HQ as (H0 & H1 & H2 & H3).
  unfold transform_quadrants_value. cbn [Np2.any orb].
  assert (Hfirst : forall Q : matrix,
             shaped (p + 1) q Q ->
             rows_of Q (Z.of_nat p) = Ok (firstn p Q)
             /\ shaped p q (firstn p Q)).
  { intros Q HQ. split.
    - apply rows_of_firstn. destruct HQ as [HlQ _]. lia.
    - apply shaped_firstn with (p := (p + 1)%nat); [assumption|lia]. }
  destruct (Hfirst Q0 H0) as [E0 S0]. destruct (Hfirst Q1 H1) as [E1 S1].
  destruct (map_transform_shaped p q _ S0 Hq) as (A0 & T0 & SA0).
  destruct (map_transform_shaped p q _ S1 Hq) as (A1 & T1 & SA1).
  destruct (map_transform_shaped p q _ H2 Hq) as (A2 & T2 & SA2).
  destruct (map_transform_shaped p q _ H3 Hq) as (A3 & T3 & SA3).
  rewrite E0. cbn [Py.bind]. rewrite T0. cbn [Py.bind].
  rewrite E1. cbn [Py.bind]. rewrite T1. cbn [Py.bind].
  rewrite (rows_of_exact Q2 p) by apply H2. cbn [Py.bind].
  rewrite T2. cbn [Py.bind].
  rewrite (rows_of_exact Q3 p) by apply H3. cbn [Py.bind].
  rewrite T3. cbn [Py.bind].
  destruct (reassemble_shaped p q A0 A1 A2 A3) as (recon & ER & SR);
    try assumption.
  rewrite ER. cbn [Py.bind].
  assert (Hgood : Np2.shape recon = Ok ((N - 1)%Z, M)).
  { rewrite EN, EM.
    replace (Z.of_nat (2 * p + 1) - 1)%Z with (Z.of_nat (2 * p)) by lia.
    apply shaped_shape; [lia|assumption]. }
  destruct calc_speeds.
  - destruct (Hspeeds eq_refl recon) as (speeds & Es).
    rewrite Es. cbn [Py.bind]. eexists. split; [reflexivity|exact Hgood].
  - eexists. split; [reflexivity|exact Hgood].
Qed.

(** X7.  An image of an odd number [N >= 5] of rows and an even number
    of columns cannot be co-added: with a selector entry set and a pool
    that could be started, the call raises [ValueError]. *)
Theorem odd_row_count_cannot_be_coadded (data : matrix) (quad : selector)
        (calc_speeds verbose : bool) (freecpus : Z) (w : world) (N M : Z) :
  Np2.shape data = Ok (N, M) -> Z.odd N = true -> (5 <= N)%Z ->
  Z.even M = true -> Np2.any quad = true ->
  fst (iabel_hansenlaw calculate_speeds data quad calc_speeds verbose
                       freecpus w) = Raise ValueError.
Proof.
  intros Hshape HN HN5 HM Hany.
  destruct (odd_shape data N M Hshape HN) as (p & q0 & EN & EM & EN2 & Hs).
  assert (HM' := HM). rewrite EM in HM'.
  destruct (even_width q0 HM') as (q & ->).
  rewrite run_value.
  destruct (cpu_count w - freecpus <? 1)%Z; [reflexivity|].
  unfold iabel_hansenlaw_value. rewrite Hshape. cbn [Py.bind].
  pose proof (decompose_odd_shaped p q data Hs) as HQ.
  destruct (decompose data) as [[[Q0 Q1] Q2] Q3].
  destruct HQ as (H0 & H1 & H2 & H3).
  unfold transform_quadrants_value. rewrite Hany.
  destruct quad as [[[s0 s1] s2] s3]. unfold coadd.
  destruct (add_value (p + 1) q (Np2.times_bool Q0 s0) (Np2.times_bool Q1 s1))
    as (a & Ea & [Hla _] & _); auto using times_bool_shaped.
  rewrite Ea. cbn [Py.bind].
  pose proof (times_bool_shaped p q Q2 s2 H2) as [Hlb _].
  unfold Np2.add at 1.
  rewrite broadcast_mismatch by lia. reflexivity.
Qed.

End OddRows.

Lemma odd_row_count_loses_a_row_witness :
  exists out,
    fst (iabel_hansenlaw no_speeds odd_image (false, false, false, false)
                         false true 1 example_world) = Ok out
    /\ Np2.shape (recon_of out) = Ok ((5 - 1)%Z, 4%Z).
Proof.
  apply (odd_row_count_loses_a_row no_speeds odd_image false true 1
           example_world 5 4);
    first [reflexivity | lia | (cbn; lia) | discriminate].
Defined.

Lemma odd_row_count_cannot_be_coadded_witness :
  fst (iabel_hansenlaw no_speeds odd_image (true, true, true, true)
                       false true 1 example_world) = Raise ValueError.
Proof.
  apply (odd_row_count_cannot_be_coadded no_speeds odd_image
           (true, true, true, true) false true 1 example_world 5 4);
    try reflexivity; lia.
Defined.

(** * What is not printed *)

Lemma quiet_ret {A : Type} (a : A) : quiet (ret a).
Proof. intros w. reflexivity. Qed.

Lemma quiet_lift {A : Type} (r : result A) : quiet (lift r).
Proof. intros w. reflexivity. Qed.

Lemma quiet_time : quiet time.
Proof. intros w. reflexivity. Qed.

Lemma quiet_cpu_count : quiet mp_cpu_count.
Proof. intros w. reflexivity. Qed.

Lemma quiet_Pool (p : Z) : quiet (mp_Pool p).
Proof. intros w. unfold mp_Pool. now destruct (p <? 1)%Z. Qed.

Lemma quiet_pool_map {A B : Type} (pool : nat) (f : A -> result B)
      (xs : list A) : quiet (pool_map pool f xs).
Proof.
  intros w. unfold pool_map.
  now destruct (nth_error (pools w) pool) as [[procs [| |]]|].
Qed.

Lemma quiet_bind {A B : Type} (m : M A) (f : A -> M B) :
  quiet m -> (forall a, quiet (f a)) -> quiet (World.wbind m f).
Proof.
  intros Hm Hf w. specialize (Hm w). unfold World.wbind.
  destruct (m w) as [[a|e] w']; cbn [snd] in *.
  - now rewrite Hf.
  - exact Hm.
Qed.

Lemma quiet_transform_quadrants (pool : nat) (quad : selector) (N2 : Z)
      (Qs : quadrants) : quiet (transform_quadrants pool quad false N2 Qs).
Proof.
  unfold transform_quadrants. destruct (Np2.any quad).
  - repeat first [ apply quiet_ret | apply quiet_lift | apply quiet_pool_map
                 | apply quiet_bind; [|intros ?] ].
  - destruct Qs as [[[Q0 Q1] Q2] Q3].
    repeat first [ apply quiet_ret | apply quiet_lift | apply quiet_pool_map
                 | apply quiet_bind; [|intros ?] ].
Qed.

Section Quiet.

Context {S : Type} (calculate_speeds : matrix -> Z -> result S).

(** X8.  With [verbose=False], [iabel_hansenlaw] prints nothing,
    whatever it is called on and however it ends. *)
Theorem nothing_is_printed_unless_verbose (data : matrix) (quad : selector)
        (calc_speeds : bool) (freecpus : Z) (w : world) :
  stdout (snd (iabel_hansenlaw calculate_speeds data quad calc_speeds false
                               freecpus w)) = stdout w.
Proof.
  revert w. change (quiet (iabel_hansenlaw calculate_speeds data quad
                                           calc_speeds false freecpus)).
  unfold iabel_hansenlaw.
  apply quiet_bind; [apply quiet_cpu_count|]. intros ncpu.
  apply quiet_bind; [apply quiet_Pool|]. intros pool.
  apply quiet_bind; [apply quiet_lift|]. intros [N M].
  apply quiet_bind; [apply quiet_ret|]. intros _.
  apply quiet_bind; [apply quiet_time|]. intros t0.
  apply quiet_bind; [apply quiet_transform_quadrants|].
  intros [[[AQ0 AQ1] AQ2] AQ3].
  apply quiet_bind; [apply quiet_lift|]. intros recon.
  apply quiet_bind; [apply quiet_ret|]. intros _.
  destruct calc_speeds; [|apply quiet_ret].
  apply quiet_bind; [apply quiet_ret|]. intros t1.
  apply quiet_bind; [apply quiet_lift|]. intros speeds.
  apply quiet_bind; [apply quiet_ret|]. intros _.
  apply quiet_ret.
Qed.

End Quiet.

(** * The centre of the image *)

Lemma shape_attr_image (data : matrix) (N M : Z) :
  Np2.shape data = Ok (N, M) -> shape_attr data = [N; M].
Proof. intros H. unfold shape_attr. now rewrite H. Qed.

Lemma half_up_of_nat (n : nat) :
  (Z.of_nat n / 2 + Z.of_nat n mod 2)%Z = Z.of_nat (n / 2 + n mod 2).
Proof.
  rewrite Nat2Z.inj_add, Nat2Z.inj_div, Nat2Z.inj_mod. reflexivity.
Qed.

Lemma half_up_bounds (n : nat) :
  (1 <= n)%nat -> (1 <= n / 2 + n mod 2 <= n)%nat.
Proof.
  intros Hn. pose proof (Nat.div_mod_eq n 2) as E.
  pose proof (Nat.mod_upper_bound n 2 ltac:(lia)) as Hm. lia.
Qed.

Lemma decompose_upper_left (data : matrix) :
  snd (fst (fst (decompose data)))
  = firstn (length data / 2 + length data mod 2)
           (map (fun r : vector => fst (Np2.array_split r)) data).
Proof.
  unfold decompose, Np2.array_split_axis1, Np2.array_split_axis0.
  destruct (Np2.array_split (map (fun r : vector => snd (Np2.array_split r))
                                 data)) as [Q0 Q3].
  unfold Np2.array_split at 1. cbn [fst snd]. now rewrite length_map.
Qed.

(** X10.  On an image, [find_center_by_center_of_image] returns, column
    first, the number of columns of the left half and the number of rows
    of the upper half of the split that [iabel_hansenlaw] makes: the
    image is split at its centre.  Twice a coordinate is the dimension,
    or the dimension plus one when that is odd.  Nothing is printed. *)
Theorem image_center_is_the_split_point (data : matrix) (verbose : bool)
        (w : world) (N M : Z) :
  Np2.shape data = Ok (N, M) ->
  let '(Q0, Q1, Q2, Q3) := decompose data in
  find_center_by_center_of_image data verbose w
  = (Ok (Pixel (Np2.ncols Q1) (len Q1)), w)
  /\ (M <= 2 * Np2.ncols Q1 <= M + 1)%Z
  /\ (N <= 2 * len Q1 <= N + 1)%Z.
Proof.
  intros Hshape.
  destruct (shape_shaped _ _ _ Hshape) as (n & m & -> & -> & Hn & [Hlen Hrows]).
  unfold find_center_by_center_of_image.
  rewrite (shape_attr_image _ _ _ Hshape).
  pose proof (decompose_upper_left data) as HQ1. rewrite Hlen in HQ1.
  destruct (decompose data) as [[[Q0 Q1] Q2] Q3]. cbn [fst snd] in HQ1.
  subst Q1.
  destruct (half_up_bounds n Hn) as [Hc1 Hc2].
  set (c := (n / 2 + n mod 2)%nat) in *.
  assert (Hrows' : len (firstn c (map (fun r : vector =>
                                         fst (Np2.array_split r)) data))
                   = Z.of_nat c).
  { unfold len. rewrite length_firstn, length_map. lia. }
  assert (Hcols : Np2.ncols (firstn c (map (fun r : vector =>
                                         fst (Np2.array_split r)) data))
                  = Z.of_nat (m / 2 + m mod 2)).
  { destruct data as [|r data]; [cbn in Hlen; lia|].
    destruct c as [|c']; [lia|]. cbn [map firstn Np2.ncols].
    inversion Hrows as [|? ? Hr _]; subst.
    unfold Np2.array_split, len. cbn [fst]. rewrite length_firstn.
    f_equal. pose proof (Nat.div_mod_eq (length r) 2).
    pose proof (Nat.mod_upper_bound (length r) 2 ltac:(lia)). lia. }
  rewrite Hrows', Hcols.
  split; [|split].
  - unfold lift. do 2 f_equal.
    change (getitem [Z.of_nat n; Z.of_nat m] 1) with (Ok (A := Z) (Z.of_nat m)).
    change (getitem [Z.of_nat n; Z.of_nat m] 0) with (Ok (A := Z) (Z.of_nat n)).
    cbn [Py.bind]. now rewrite !half_up_of_nat.
  - pose proof (Nat.div_mod_eq m 2).
    pose proof (Nat.mod_upper_bound m 2 ltac:(lia)). lia.
  - pose proof (Nat.div_mod_eq n 2).
    pose proof (Nat.mod_upper_bound n 2 ltac:(lia)). unfold c. lia.
Qed.

Lemma image_center_is_the_split_point_witness :
  let '(Q0, Q1, Q2, Q3) := decompose odd_image in
  find_center_by_center_of_image odd_image true example_world
  = (Ok (Pixel (Np2.ncols Q1) (len Q1)), example_world)
  /\ (4 <= 2 * Np2.ncols Q1 <= 4 + 1)%Z
  /\ (5 <= 2 * len Q1 <= 5 + 1)%Z.
Proof.
  apply (image_center_is_the_split_point odd_image true example_world 5 4).
  reflexivity.
Defined.

(** * Where the centre of mass lies *)

Lemma sum_nonnegative (a : vector) :
  Forall (fun x => 0 <= x) a -> 0 <= Np.sum a.
Proof.
  intros H. induction H as [|x a Hx Ha IH].
  - unfold Np.sum. cbn. lra.
  - rewrite sum_cons. lra.
Qed.

Lemma weighted_from_bounds (s : nat) (a : vector) :
  Forall (fun x => 0 <= x) a ->
  let v := Np.sum (map (fun p => INR (fst p) * snd p)
                       (combine (seq s (length a)) a)) in
  INR s * Np.sum a <= v
  /\ v <= (INR s + INR (length a) - 1) * Np.sum a.
Proof.
  intros H. revert s. induction H as [|x a Hx Ha IH]; intros s.
  - cbn. unfold Np.sum. cbn. lra.
  - cbn [length seq combine map fst snd]. rewrite !sum_cons.
    destruct (IH (Datatypes.S s)) as [Hlo Hhi].
    pose proof (sum_nonnegative a Ha) as Hs.
    pose proof (pos_INR s) as Hs0. pose proof (pos_INR (length a)) as Hl0.
    rewrite S_INR in Hlo, Hhi. rewrite S_INR.
    split; nra.
Qed.

Lemma weighted_bounds (a : vector) :
  Forall (fun x => 0 <= x) a ->
  0 <= Np2.weighted a <= (INR (length a) - 1) * Np.sum a.
Proof.
  intros H. destruct (weighted_from_bounds 0 a H) as [Hlo Hhi].
  unfold Np2.weighted. cbn [INR] in *. lra.
Qed.

Lemma total_nonnegative (data : matrix) :
  nonnegative data -> Forall (fun x => 0 <= x) (map Np.sum data).
Proof.
  intros H. apply Forall_map. revert H. apply Forall_impl.
  exact sum_nonnegative.
Qed.

Lemma column_weight_bounds (q : nat) (data : matrix) :
  nonnegative data -> Forall (fun r => length r = q) data ->
  0 <= Np.sum (map Np2.weighted data)
    <= (INR q - 1) * Np2.total data.
Proof.
  intros Hpos Hrows. unfold Np2.total.
  induction data as [|r data IH].
  - unfold Np.sum. cbn. lra.
  - inversion Hpos as [|? ? Hr Hd]; subst.
    inversion Hrows as [|? ? Hq Hd']; subst.
    cbn [map]. rewrite !sum_cons.
    pose proof (weighted_bounds r Hr). specialize (IH Hd Hd'). lra.
Qed.

Lemma round_within (x : R) (K : Z) :
  0 <= x <= IZR K -> (0 <= Py.round x <= K)%Z.
Proof.
  intros [Hlo Hhi]. unfold Py.round.
  pose proof (base_fp x) as [Hf0 Hf1].
  pose proof (Rplus_Int_part_frac_part x) as Hx.
  assert (H0 : (0 <= Int_part x)%Z).
  { apply Z.lt_succ_r, lt_IZR. rewrite succ_IZR. lra. }
  assert (HK : (Int_part x <= K)%Z) by (apply le_IZR; lra).
  assert (Hstep : 0 < frac_part x -> (Int_part x + 1 <= K)%Z).
  { intros Hpos. apply Z.lt_succ_r. unfold Z.succ. apply lt_IZR.
    rewrite !plus_IZR. lra. }
  destruct (Rlt_dec (frac_part x) (1 / 2)); [lia|].
  assert (0 < frac_part x) by lra.
  specialize (Hstep H).
  destruct (Rlt_dec (1 / 2) (frac_part x)); [lia|].
  destruct (Z.even (Int_part x)); lia.
Qed.

(** X12.  On an image without negative samples and with a positive
    total, the centre of mass lies within the image, and the rounded
    centre that [find_center_by_center_of_mass] returns is the index of
    a pixel: a column from [0] to [M - 1] and a row from [0] to
    [N - 1]. *)
Theorem center_of_mass_is_a_pixel_of_the_image (data : matrix)
        (verbose : bool) (w : world) (N M : Z) :
  Np2.shape data = Ok (N, M) -> nonnegative data -> 0 < Np2.total data ->
  exists x y : Z,
    fst (find_center_by_center_of_mass data verbose true w) = Ok (Pixel x y)
    /\ (0 <= x <= M - 1)%Z /\ (0 <= y <= N - 1)%Z.
Proof.
  intros Hshape Hpos Hmass.
  destruct (shape_shaped _ _ _ Hshape) as (n & m & -> & -> & Hn & [Hlen Hrows]).
  assert (Hmass' : Np2.total data <> 0) by lra.
  exists (Py.round (Np.sum (map Np2.weighted data) / Np2.total data)),
         (Py.round (Np2.weighted (map Np.sum data) / Np2.total data)).
  split.
  { exact (find_center_of_mass_finite data verbose true w _ _
             (center_of_mass_finite data Hmass')). }
  pose proof (column_weight_bounds m data Hpos Hrows) as [Hc0 Hc1].
  pose proof (weighted_bounds _ (total_nonnegative data Hpos)) as [Hr0 Hr1].
  rewrite length_map, Hlen in Hr1. fold (Np2.total data) in Hr1.
  assert (Hm : (1 <= m)%nat).
  { destruct m as [|m']; [|lia]. exfalso.
    assert (Np2.total data = 0); [|lra].
    unfold Np2.total. clear - Hrows.
    induction Hrows as [|r data Hr _ IH]; [reflexivity|].
    cbn [map]. rewrite sum_cons, IH.
    destruct r; [|discriminate]. unfold Np.sum. cbn. lra. }
  split; apply round_within.
  - rewrite minus_IZR, <- INR_IZR_INZ. split.
    + apply Rmult_le_pos; [assumption|]. left. now apply Rinv_0_lt_compat.
    + apply Rmult_le_reg_r with (Np2.total data); [assumption|].
      unfold Rdiv. rewrite Rmult_assoc, Rinv_l by lra. lra.
  - rewrite minus_IZR, <- INR_IZR_INZ. split.
    + apply Rmult_le_pos; [assumption|]. left. now apply Rinv_0_lt_compat.
    + apply Rmult_le_reg_r with (Np2.total data); [assumption|].
      unfold Rdiv. rewrite Rmult_assoc, Rinv_l by lra. lra.
Qed.

Lemma center_of_mass_is_a_pixel_of_the_image_witness :
  exists x y : Z,
    fst (find_center_by_center_of_mass example_quadrant true true
                                       example_world) = Ok (Pixel x y)
    /\ (0 <= x <= 2 - 1)%Z /\ (0 <= y <= 2 - 1)%Z.
Proof.
  apply (center_of_mass_is_a_pixel_of_the_image example_quadrant true
           example_world 2 2).
  - reflexivity.
  - unfold nonnegative, example_quadrant.
    repeat first [apply Forall_cons | apply Forall_nil]; lra.
  - unfold Np2.total, Np.sum. cbn. lra.
Defined.

(** * Brighter and uniform images *)

Lemma sum_scaled (c : R) (a : vector) :
  Np.sum (map (Rmult c) a) = c * Np.sum a.
Proof.
  induction a as [|x a IH]; cbn [map].
  - unfold Np.sum. cbn. lra.
  - rewrite !sum_cons, IH. lra.
Qed.

Lemma weighted_from_scaled (c : R) (s : nat) (a : vector) :
  Np.sum (map (fun p => INR (fst p) * snd p)
              (combine (seq s (length (map (Rmult c) a))) (map (Rmult c) a)))
  = c * Np.sum (map (fun p => INR (fst p) * snd p)
                    (combine (seq s (length a)) a)).
Proof.
  revert s. induction a as [|x a IH]; intros s;
    cbn [map length seq combine fst snd].
  - unfold Np.sum. cbn. lra.
  - rewrite !sum_cons, IH. lra.
Qed.

Lemma weighted_scaled (c : R) (a : vector) :
  Np2.weighted (map (Rmult c) a) = c * Np2.weighted a.
Proof.
  unfold Np2.weighted. rewrite weighted_from_scaled. reflexivity.
Qed.

Lemma sums_scaled (c : R) (data : matrix) :
  map Np.sum (scaled c data) = map (Rmult c) (map Np.sum data).
Proof.
  unfold scaled. induction data as [|r data IH]; cbn [map]; [reflexivity|].
  now rewrite sum_scaled, IH.
Qed.

Lemma weights_scaled (c : R) (data : matrix) :
  map Np2.weighted (scaled c data) = map (Rmult c) (map Np2.weighted data).
Proof.
  unfold scaled. induction data as [|r data IH]; cbn [map]; [reflexivity|].
  now rewrite weighted_scaled, IH.
Qed.

Lemma center_of_mass_scaled (c : R) (data : matrix) :
  c <> 0 -> Np2.total data <> 0 ->
  Np2.center_of_mass (scaled c data) = Np2.center_of_mass data.
Proof.
  intros Hc Hmass.
  assert (Hscaled : Np2.total (scaled c data) = c * Np2.total data).
  { unfold Np2.total. now rewrite sums_scaled, sum_scaled. }
  assert (Hmass' : Np2.total (scaled c data) <> 0).
  { rewrite Hscaled. now apply Rmult_integral_contrapositive_currified. }
  rewrite (center_of_mass_finite _ Hmass'), (center_of_mass_finite _ Hmass).
  rewrite Hscaled, sums_scaled, weights_scaled, weighted_scaled, sum_scaled.
  f_equal; f_equal; field; split; assumption.
Qed.

(** X13.  Multiplying every sample of an image of non-zero total by the
    same non-zero factor changes nothing in what
    [find_center_by_center_of_mass] returns and prints. *)
Theorem center_of_mass_ignores_brightness (c : R) (data : matrix)
        (verbose round_output : bool) (w : world) :
  c <> 0 -> Np2.total data <> 0 ->
  find_center_by_center_of_mass (scaled c data) verbose round_output w
  = find_center_by_center_of_mass data verbose round_output w.
Proof.
  intros Hc Hmass. unfold find_center_by_center_of_mass.
  now rewrite center_of_mass_scaled.
Qed.

Lemma center_of_mass_ignores_brightness_witness :
  find_center_by_center_of_mass (scaled 3 example_quadrant) true true
                                example_world
  = find_center_by_center_of_mass example_quadrant true true example_world.
Proof.
  apply (center_of_mass_ignores_brightness 3 example_quadrant true true
           example_world).
  - lra.
  - unfold Np2.total, Np.sum. cbn. lra.
Defined.






(** * Images too narrow for the row transform *)

Section Narrow.

Context {S : Type} (calculate_speeds : matrix -> Z -> result S).

(** X15.  An image of even shape with fewer than four columns is not
    transformed: its quadrant rows have fewer than two samples, and once
    the pool is started the call raises [ValueError], whatever the
    selector. *)
Theorem narrow_image_is_refused (data : matrix) (quad : selector)
        (calc_speeds verbose : bool) (freecpus : Z) (w : world) (N M : Z) :
  Np2.shape data = Ok (N, M) -> Z.even N = true -> Z.even M = true ->
  (M < 4)%Z ->
  fst (iabel_hansenlaw calculate_speeds data quad calc_speeds verbose
                       freecpus w) = Raise ValueError.
Proof.
  intros Hshape HN HM HM4.
  destruct (even_shape data N M Hshape HN) as (p & q0 & _ & EM & _ & Hp & Hs).
  assert (HM' := HM). rewrite EM in HM'.
  destruct (even_width q0 HM') as (q & ->).
  rewrite run_value.
  destruct (cpu_count w - freecpus <? 1)%Z; [reflexivity|].
  apply (value_narrow calculate_speeds p q); [assumption|lia|assumption].
Qed.

End Narrow.

Lemma narrow_image_is_refused_witness :
  fst (iabel_hansenlaw no_speeds example_quadrant (true, true, true, true)
                       false true 1 example_world) = Raise ValueError.
Proof.
  apply (narrow_image_is_refused no_speeds example_quadrant
           (true, true, true, true) false true 1 example_world 2 2);
    first [reflexivity | lia].
Defined.
